(** * Discord-Bot-User-Stats: a shallow embedding of [index.js]

    The bot keeps, per author, five running counters in the global object
    [stats], updates them for every live or back-filled message
    ([processMessage]) and renders them as a leaderboard ([!stats]).

    Conventions of the embedding.
    - A JavaScript string is a [string] holding its UTF-8 bytes.
    - A counter is a JSON integer or is missing: [option Z], [None] being the
      JavaScript [undefined] of an absent key.  Counters stay far below 2^53,
      where the arithmetic of JavaScript numbers is exact.
    - [stats] is a JavaScript object used as a map.  Its keys are Discord
      snowflakes (decimal strings of 17 digits and more, never array indices),
      so [Object.entries] lists them in insertion order: the store is an
      association list in that order.
    - [fs.writeFileSync] is taken to succeed; the file is the store last
      written.
    - Console output, requests to Discord and messages sent are recorded in
      the field [out] of the state, in the order in which they happen.
    - One handler runs at a time (the event loop is not interleaved). *)

From Stdlib Require Import ZArith List String Ascii Bool Arith Lia.
From Stdlib Require Import Permutation Sorted DecimalString.
Import ListNotations.

Local Open Scope list_scope.

(* ================================================================== *)
(** ** JavaScript primitives used by the bot *)

Module JS.

(** [String.prototype.toLowerCase] on the letters A-Z.  Bytes of 128 and more
    (the UTF-8 encoding of the other characters) are kept: no character
    outside A-Z lowers to one of the letters of the extensions tested by
    [processMessage]. *)
Definition lower (c : ascii) : ascii :=
  let n := nat_of_ascii c in
  if (65 <=? n) && (n <=? 90) then ascii_of_nat (n + 32) else c.

Fixpoint toLowerCase (s : string) : string :=
  match s with
  | EmptyString => EmptyString
  | String c r => String (lower c) (toLowerCase r)
  end.

(** [s.endsWith(suffix)] *)
Definition endsWith (s suffix : string) : bool :=
  let n := String.length s in
  let k := String.length suffix in
  (k <=? n) && String.eqb (substring (n - k) k s) suffix.

(** Truthiness of a value that is [null]/[undefined] or a string. *)
Definition truthy (v : option string) : bool :=
  match v with
  | Some s => negb (String.eqb s "")
  | None => false
  end.

(** [a || b] on such values. *)
Definition or_else (a b : option string) : option string :=
  if truthy a then a else b.

(** Template-literal conversion of an integer. *)
Definition Z_to_string (z : Z) : string :=
  NilZero.string_of_int (Z.to_int z).

(** Template-literal conversion of a counter that may be missing. *)
Definition count_to_string (v : option Z) : string :=
  match v with
  | Some z => Z_to_string z
  | None => "undefined"
  end.

Definition bytes (l : list nat) : string :=
  fold_right (fun n s => String (ascii_of_nat n) s) EmptyString l.

(** The characters of the class [\s], UTF-8 encoded: U+0009..U+000D, U+0020,
    U+00A0, U+1680, U+2000..U+200A, U+2028, U+2029, U+202F, U+205F, U+3000,
    U+FEFF. *)
Definition whitespace : list string :=
  map bytes
    [ [9]; [10]; [11]; [12]; [13]; [32]; [194; 160]; [225; 154; 128];
      [226; 128; 128]; [226; 128; 129]; [226; 128; 130]; [226; 128; 131];
      [226; 128; 132]; [226; 128; 133]; [226; 128; 134]; [226; 128; 135];
      [226; 128; 136]; [226; 128; 137]; [226; 128; 138]; [226; 128; 168];
      [226; 128; 169]; [226; 128; 175]; [226; 129; 159]; [227; 128; 128];
      [239; 187; 191] ].

(** [[^\s]+] matches at the head of [s]: there is a character and it is not
    white space. *)
Definition nonspace_head (s : string) : bool :=
  negb (String.eqb s "") && negb (existsb (fun w => prefix w s) whitespace).

Fixpoint drop (n : nat) (s : string) : string :=
  match n, s with
  | O, _ => s
  | S _, EmptyString => EmptyString
  | S n', String _ r => drop n' r
  end.

(** [/(https?:\/\/[^\s]+)/] matches at the head of [s]. *)
Definition link_here (s : string) : bool :=
  (prefix "https://" s && nonspace_head (drop 8 s))
  || (prefix "http://" s && nonspace_head (drop 7 s)).

(** [/(https?:\/\/[^\s]+)/g.test(s)] on a regular expression object that was
    just created by its literal ([lastIndex] is 0): some position matches. *)
Fixpoint linkRegex_test (s : string) : bool :=
  link_here s ||
  match s with
  | EmptyString => false
  | String _ r => linkRegex_test r
  end.

End JS.

(* ================================================================== *)
(** ** Data model *)

(** The five counter keys of a record of [stats]. *)
Inductive Category := messages | images | gifs | videos | links.

Definition Category_eqb (a b : Category) : bool :=
  match a, b with
  | messages, messages | images, images | gifs, gifs
  | videos, videos | links, links => true
  | _, _ => false
  end.

(** One value of [stats]: the parsed JSON object of one author. *)
Record UserStats := mkUserStats {
  username : option string;
  c_messages : option Z;
  c_images : option Z;
  c_gifs : option Z;
  c_videos : option Z;
  c_links : option Z
}.

(** [userStats[category]] *)
Definition get_key (c : Category) (r : UserStats) : option Z :=
  match c with
  | messages => c_messages r
  | images => c_images r
  | gifs => c_gifs r
  | videos => c_videos r
  | links => c_links r
  end.

(** [userStats[category] = v] *)
Definition set_key (c : Category) (v : option Z) (r : UserStats) : UserStats :=
  match c with
  | messages => mkUserStats (username r) v (c_images r) (c_gifs r) (c_videos r) (c_links r)
  | images => mkUserStats (username r) (c_messages r) v (c_gifs r) (c_videos r) (c_links r)
  | gifs => mkUserStats (username r) (c_messages r) (c_images r) v (c_videos r) (c_links r)
  | videos => mkUserStats (username r) (c_messages r) (c_images r) (c_gifs r) v (c_links r)
  | links => mkUserStats (username r) (c_messages r) (c_images r) (c_gifs r) (c_videos r) v
  end.

Definition set_username (u : string) (r : UserStats) : UserStats :=
  mkUserStats (Some u) (c_messages r) (c_images r) (c_gifs r) (c_videos r) (c_links r).

(** The object [stats], in the order of [Object.entries]. *)
Definition Store := list (string * UserStats).

(** [stats[userId]] *)
Fixpoint lookup (userId : string) (s : Store) : option UserStats :=
  match s with
  | [] => None
  | (k, r) :: s' => if String.eqb userId k then Some r else lookup userId s'
  end.

(** In-place mutation of the record [stats[userId]]. *)
Fixpoint update (userId : string) (f : UserStats -> UserStats) (s : Store) : Store :=
  match s with
  | [] => []
  | (k, r) :: s' =>
      if String.eqb userId k then (k, f r) :: s' else (k, r) :: update userId f s'
  end.

(** The value a counter stands for: a missing record or key counts for 0. *)
Definition value (v : option Z) : Z :=
  match v with Some z => z | None => 0%Z end.

Definition counter (s : Store) (userId : string) (c : Category) : Z :=
  match lookup userId s with
  | Some r => value (get_key c r)
  | None => 0%Z
  end.

(** Sum of one counter over all authors. *)
Definition total (c : Category) (s : Store) : Z :=
  fold_right (fun e acc => (value (get_key c (snd e)) + acc)%Z) 0%Z s.

(** Every record holds the five counters (the invariant of the data model). *)
Definition complete (r : UserStats) : Prop :=
  forall c, get_key c r <> None.

Definition complete_store (s : Store) : Prop :=
  Forall (fun e => complete (snd e)) s.

Record Author := mkAuthor {
  author_id : string;
  author_username : string;
  bot : bool
}.

Record Attachment := mkAttachment {
  att_name : option string
}.

(** A message as the bot reads it.  [message.attachments] is a Collection,
    here the list of its values in iteration order; [message.guild] and
    [message.channel] are arguments of the handler. *)
Record Message := mkMessage {
  msg_id : string;
  author : Author;
  content : string;
  attachments : list Attachment
}.

(** [channel.messages.fetch(options)] *)
Record FetchOptions := mkOptions {
  limit : nat;
  before : option string
}.

Inductive FetchResult :=
| Page (fetchedMessages : list Message)
| FetchError (error : string).

Inductive ChannelType := GuildText | GuildVoice | GuildCategory | GuildAnnouncement.

Definition is_GuildText (t : ChannelType) : bool :=
  match t with GuildText => true | _ => false end.

(** A channel of the guild.  [fetch n options] is the answer of Discord to
    the [n]-th request (counted from 0) that one run of the back-fill makes on
    this channel. *)
Record Channel := mkChannel {
  ch_name : string;
  ch_type : ChannelType;
  fetch : nat -> FetchOptions -> FetchResult
}.

Record Member := mkMember {
  displayName : string;
  user_username : string
}.

Inductive MemberFetch :=
| Fetched (member : Member)
| Rejected (code : option Z) (error : string).

Record Guild := mkGuild {
  channels : list (string * Channel);      (* guild.channels.cache *)
  members_cache : string -> option Member; (* guild.members.cache.get(userId) *)
  members_fetch : string -> MemberFetch;   (* guild.members.fetch(userId) *)
  members_fetch_all : option string        (* guild.members.fetch(): the error, if it rejects *)
}.

(** What the bot does to the outside, in order. *)
Inductive Event :=
| Log_fetching (name channelId : string)
| Request (name : string) (options : FetchOptions)
| Log_fetched (size total : nat)
| Error_fetching (name error : string)
| Log_done (name : string) (fetchedCount : nat)
| Log_finished
| Log_no_guild
| Log_user_left (userId : string)
| Error_member (userId error : string)
| Send (text : string)
| Reply (text : string).

(** The state of the process. *)
Record State := mkState {
  stats : Store;             (* the global [stats] *)
  file : option Store;       (* stats.json *)
  writes : nat;              (* number of calls of [saveStats] *)
  out : list Event
}.

Definition with_stats (s : Store) (st : State) : State :=
  mkState s (file st) (writes st) (out st).

Definition emit (e : Event) (st : State) : State :=
  mkState (stats st) (file st) (writes st) (out st ++ [e]).

(* ================================================================== *)
(** ** The functions of index.js *)

(** [saveStats()] *)
Definition saveStats (st : State) : State :=
  mkState (stats st) (Some (stats st)) (S (writes st)) (out st).

(** The repairs of an existing record, lines 47-53. *)
Definition repair_key (c : Category) (r : UserStats) : UserStats :=
  match get_key c r with
  | None => set_key c (Some 0%Z) r
  | Some _ => r
  end.

Definition repair (u : string) (r : UserStats) : UserStats :=
  repair_key links
    (repair_key videos
       (repair_key gifs
          (repair_key images
             (repair_key messages (set_username u r))))).

(** The object literal of lines 37-44. *)
Definition new_record (username : string) : UserStats :=
  mkUserStats (Some username) (Some 0%Z) (Some 0%Z) (Some 0%Z) (Some 0%Z) (Some 0%Z).

(** [initUserStats(message)], on the store. *)
Definition initUserStats (message : Message) (s : Store) : Store :=
  let userId := author_id (author message) in
  let username := author_username (author message) in
  match lookup userId s with
  | None => s ++ [(userId, new_record username)]
  | Some _ => update userId (repair username) s
  end.

(** [stats[userId].c++].  On a missing key JavaScript would store NaN; this
    does not arise, [initUserStats] has filled the five keys before. *)
Definition incr (userId : string) (c : Category) (s : Store) : Store :=
  update userId (fun r => set_key c (option_map Z.succ (get_key c r)) r) s.

(** The body of the [forEach] over the attachments, lines 72-84. *)
Definition count_attachment (userId : string) (s : Store) (attachment : Attachment) : Store :=
  let fileName :=
    match att_name attachment with
    | Some n => JS.toLowerCase n
    | None => ""%string
    end in
  if JS.endsWith fileName ".png" || JS.endsWith fileName ".jpg"
     || JS.endsWith fileName ".jpeg" then incr userId images s
  else if JS.endsWith fileName ".gif" then incr userId gifs s
  else if JS.endsWith fileName ".mp4" || JS.endsWith fileName ".mov"
          || JS.endsWith fileName ".avi" || JS.endsWith fileName ".wmv"
       then incr userId videos s
  else s.

(** [processMessage(message)] *)
Definition processMessage (message : Message) (st : State) : State :=
  if bot (author message) then st
  else
    let s1 := initUserStats message (stats st) in
    let userId := author_id (author message) in
    let s2 := incr userId messages s1 in
    let s3 :=
      if 0 <? List.length (attachments message)
      then fold_left (count_attachment userId) (attachments message) s2
      else s2 in
    let s4 := if JS.linkRegex_test (content message) then incr userId links s3 else s3 in
    saveStats (with_stats s4 st).

(** *** Back-fill *)

(** [fetchedMessages.forEach((msg) => processMessage(msg))] *)
Definition process_all (fetchedMessages : list Message) (st : State) : State :=
  fold_left (fun st msg => processMessage msg st) fetchedMessages st.

(** [fetchedMessages.last().id], of a page that is not empty. *)
Definition last_id (fetchedMessages : list Message) : option string :=
  Some (last (map msg_id fetchedMessages) ""%string).

(** The options of the next request, lines 115-116. *)
Definition next_options (lastMessageId : option string) : FetchOptions :=
  mkOptions 100 (if JS.truthy lastMessageId then lastMessageId else None).

(** How the loop over the pages of one channel ends: by one of the two
    [break]s of the [try] block, or by the one of the [catch]. *)
Inductive Terminal := Done | Aborted.

(** The [while (true)] loop of one channel, lines 113-133.  [n] counts the
    requests made so far; [None] is returned when [fuel] iterations did not
    reach a [break]. *)
Fixpoint backfill_loop (fuel : nat) (channel : Channel) (n : nat)
    (lastMessageId : option string) (fetchedCount : nat) (st : State)
    : option (State * nat * Terminal) :=
  match fuel with
  | O => None
  | S fuel' =>
      let options := next_options lastMessageId in
      let st := emit (Request (ch_name channel) options) st in
      match fetch channel n options with
      | FetchError error =>
          Some (emit (Error_fetching (ch_name channel) error) st, fetchedCount, Aborted)
      | Page fetchedMessages =>
          if List.length fetchedMessages =? 0 then Some (st, fetchedCount, Done)
          else
            let st := process_all fetchedMessages st in
            let fetchedCount := fetchedCount + List.length fetchedMessages in
            let lastMessageId := last_id fetchedMessages in
            let st := emit (Log_fetched (List.length fetchedMessages) fetchedCount) st in
            if List.length fetchedMessages <? 100 then Some (st, fetchedCount, Done)
            else backfill_loop fuel' channel (S n) lastMessageId fetchedCount st
      end
  end.

(** The body of the [for] loop over the channels, for one channel. *)
Definition backfill_channel (fuel : nat) (channelId : string) (channel : Channel)
    (st : State) : option (State * Terminal) :=
  match backfill_loop fuel channel 0 None 0
          (emit (Log_fetching (ch_name channel) channelId) st) with
  | None => None
  | Some (st', fetchedCount, t) =>
      Some (emit (Log_done (ch_name channel) fetchedCount) st', t)
  end.

(** The [for] loop over [guild.channels.cache], lines 105-137; the result
    lists how the loop of each text channel ended. *)
Fixpoint backfill_channels (fuel : nat) (chs : list (string * Channel)) (st : State)
    : option (State * list (string * Terminal)) :=
  match chs with
  | [] => Some (st, [])
  | (channelId, channel) :: rest =>
      if is_GuildText (ch_type channel) then
        match backfill_channel fuel channelId channel st with
        | None => None
        | Some (st', t) =>
            match backfill_channels fuel rest st' with
            | None => None
            | Some (st'', ts) => Some (st'', (channelId, t) :: ts)
            end
        end
      else backfill_channels fuel rest st
  end.

(** [fetchAllMessagesForGuild(guild)] *)
Definition fetchAllMessagesForGuild (fuel : nat) (guild : option Guild) (st : State)
    : option (State * list (string * Terminal)) :=
  match guild with
  | None => Some (emit Log_no_guild st, [])
  | Some g =>
      match backfill_channels fuel (channels g) st with
      | None => None
      | Some (st', ts) => Some (emit Log_finished st', ts)
      end
  end.

(** *** Leaderboard *)

(** An element of [Object.entries(stats)]: the array [[userId, userStats]].
    Arrays are objects, equal under [===] only to themselves: [ref] is the
    identity of the array, the number of its creation. *)
Record Entry := mkEntry {
  ref : nat;
  key : string;
  val : UserStats
}.

(** [Object.entries(stats)], the arrays being created from number [heap] on. *)
Fixpoint Object_entries (heap : nat) (s : Store) : list Entry :=
  match s with
  | [] => []
  | (k, r) :: s' => mkEntry heap k r :: Object_entries (S heap) s'
  end.

(** The comparison function [(a, b) => b[1].c - a[1].c].  A missing counter
    makes the difference NaN, which [Array.prototype.sort] reads as 0. *)
Definition compare_desc (c : Category) (a b : Entry) : Z :=
  match get_key c (val b), get_key c (val a) with
  | Some y, Some x => (y - x)%Z
  | _, _ => 0%Z
  end.

(** [Array.prototype.sort] is a stable sort (ECMAScript 2019); it is modelled
    as V8, the engine of Node, performs it on an array of fewer than 64
    elements: the run at the head of the array is found (and reversed when it
    is descending), then every later element is put into it by a binary
    insertion.  [cmp] is the comparison with NaN already read as 0.  For 64
    elements and more V8 sorts run by run in this way and merges the runs;
    when the comparison is a consistent order the result is the one given
    here, the only stable sorted arrangement of the array. *)

(** The loop of [CountAndMakeRun]: the elements that extend the run after
    [previousElement], and the elements that follow the run. *)
Fixpoint run_tail (cmp : Entry -> Entry -> Z) (isDescending : bool)
    (previousElement : Entry) (l : list Entry) : list Entry * list Entry :=
  match l with
  | [] => ([], [])
  | currentElement :: l' =>
      let order := cmp currentElement previousElement in
      if (if isDescending then (0 <=? order)%Z else (order <? 0)%Z) then ([], l)
      else
        let '(run, rest) := run_tail cmp isDescending currentElement l' in
        (currentElement :: run, rest)
  end.

(** [CountAndMakeRun]: the run at the head of the array, in ascending order
    of [cmp], and the elements that follow it. *)
Definition CountAndMakeRun (cmp : Entry -> Entry -> Z) (a : list Entry)
    : list Entry * list Entry :=
  match a with
  | [] => ([], [])
  | [x] => ([x], [])
  | elementHigh :: elementLow :: l =>
      let order := cmp elementLow elementHigh in
      let isDescending := (order <? 0)%Z in
      let '(run, rest) := run_tail cmp isDescending elementLow l in
      let run := elementHigh :: elementLow :: run in
      (if isDescending then rev run else run, rest)
  end.

(** The binary search of [BinaryInsertionSort]: the index in [left..right]
    where [pivot] goes. *)
Fixpoint insertion_point (fuel : nat) (cmp : Entry -> Entry -> Z) (pivot : Entry)
    (a : list Entry) (left right : nat) : nat :=
  match fuel with
  | O => left
  | S fuel' =>
      if left <? right then
        let mid := left + (right - left) / 2 in
        match nth_error a mid with
        | Some e =>
            if (cmp pivot e <? 0)%Z
            then insertion_point fuel' cmp pivot a left mid
            else insertion_point fuel' cmp pivot a (mid + 1) right
        | None => left
        end
      else left
  end.

(** One round of [BinaryInsertionSort]: [pivot], the element that follows
    the sorted part [a], is moved to its insertion point. *)
Definition binary_insert (cmp : Entry -> Entry -> Z) (a : list Entry) (pivot : Entry)
    : list Entry :=
  let left := insertion_point (List.length a) cmp pivot a 0 (List.length a) in
  firstn left a ++ pivot :: skipn left a.

Definition sort (cmp : Entry -> Entry -> Z) (l : list Entry) : list Entry :=
  let '(run, rest) := CountAndMakeRun cmp l in
  fold_left (binary_insert cmp) rest run.

(** [[...entries].sort((a, b) => b[1].c - a[1].c)] *)
Definition leaderboard (c : Category) (entries : list Entry) : list Entry :=
  sort (compare_desc c) entries.

(** [array.indexOf(x)]: the first index whose element is [=== x], or -1. *)
Fixpoint indexOf_from (i : Z) (l : list Entry) (x : Entry) : Z :=
  match l with
  | [] => (-1)%Z
  | y :: l' => if ref y =? ref x then i else indexOf_from (i + 1)%Z l' x
  end.

Definition indexOf (l : list Entry) (x : Entry) : Z := indexOf_from 0%Z l x.

Definition newline : string := String (ascii_of_nat 10) EmptyString.

(** [member.displayName || member.user.username] *)
Definition member_name (member : Member) : option string :=
  JS.or_else (Some (displayName member)) (Some (user_username member)).

(** Lines 196-222: the name shown for one entry, and what is logged. *)
Definition resolve_name (guild : Guild) (userId : string) (userStats : UserStats)
    : string * list Event :=
  let displayName := username userStats in
  let '(displayName, log) :=
    match members_cache guild userId with
    | Some member => (member_name member, [])
    | None =>
        match members_fetch guild userId with
        | Fetched member => (member_name member, [])
        | Rejected code error =>
            match code with
            | Some 10007%Z => (Some "Unknown User"%string, [Log_user_left userId])
            | _ => (displayName, [Error_member userId error])
            end
        end
    end in
  (match JS.or_else displayName (Some userId) with
   | Some s => s
   | None => "undefined"%string
   end, log).

(** The line appended to [text] for one entry, line 225. *)
Definition line (rank : Z) (displayName : string) (count : option Z) : string :=
  (JS.Z_to_string rank ++ ". **" ++ displayName ++ "** - `"
   ++ JS.count_to_string count ++ "`" ++ newline)%string.

(** The [for] loop of [getTopTenUsers] over the entries [todo] still to
    render.  The array literal [[userId, userStats]] of line 225 creates the
    object number [heap]. *)
Fixpoint render (topTen todo : list Entry) (category : Category) (guild : Guild)
    (heap : nat) (text : string) : string * list Event * nat :=
  match todo with
  | [] => (text, [], heap)
  | e :: rest =>
      let userId := key e in
      let userStats := val e in
      let '(displayName, log) := resolve_name guild userId userStats in
      let count := get_key category userStats in
      let rank := (indexOf topTen (mkEntry heap userId userStats) + 1)%Z in
      let '(text', log', heap') :=
        render topTen rest category guild (S heap)
               (text ++ line rank displayName count)%string in
      (text', log ++ log', heap')
  end.

(** [getTopTenUsers(leaderboard, category, message)], with
    [guild = message.guild]. *)
Definition getTopTenUsers (leaderboard : list Entry) (category : Category)
    (guild : Guild) (heap : nat) : string * list Event * nat :=
  let topTen := firstn 10 leaderboard in
  let '(text, log, heap') := render topTen topTen category guild heap ""%string in
  (if String.eqb text "" then "No data"%string else text, log, heap').

(** Lines 178-245: the answer to [!stats] on a store that is not empty, in a
    guild.  Objects are numbered from 0 in the order of their creation. *)
Definition stats_message (guild : Guild) (s : Store) : string * list Event :=
  let entries := Object_entries 0 s in
  let heap := List.length s in
  let '(messagesText, l1, heap) := getTopTenUsers (leaderboard messages entries) messages guild heap in
  let '(imagesText, l2, heap) := getTopTenUsers (leaderboard images entries) images guild heap in
  let '(gifsText, l3, heap) := getTopTenUsers (leaderboard gifs entries) gifs guild heap in
  let '(videosText, l4, heap) := getTopTenUsers (leaderboard videos entries) videos guild heap in
  let '(linksText, l5, heap) := getTopTenUsers (leaderboard links entries) links guild heap in
  (("**Server Leaderboard (Top 10):**" ++ newline ++ newline
    ++ "**Messages:**" ++ newline ++ messagesText ++ newline
    ++ "**Images:**" ++ newline ++ imagesText ++ newline
    ++ "**GIFs:**" ++ newline ++ gifsText ++ newline
    ++ "**Videos:**" ++ newline ++ videosText ++ newline
    ++ "**Links:**" ++ newline ++ linksText ++ newline)%string,
   l1 ++ l2 ++ l3 ++ l4 ++ l5).

(** *** The [messageCreate] handler *)

(** How the handler ends: it returns, or its promise is rejected. *)
Inductive Completion := Returned | Thrown (error : string).

Definition emit_all (l : list Event) (st : State) : State :=
  mkState (stats st) (file st) (writes st) (out st ++ l).

(** The handler of [messageCreate], lines 148-247, with
    [guild = message.guild]. *)
Definition on_messageCreate (fuel : nat) (guild : option Guild) (message : Message)
    (st : State) : option (State * Completion) :=
  if String.eqb (content message) "!ping" then
    Some (emit (Send "Pong!") st, Returned)
  else if String.eqb (content message) "!zain" then
    Some (emit (Send "hyder") st, Returned)
  else if String.eqb (content message) "!arjun" then
    Some (emit (Send "ishaan") st, Returned)
  else if String.eqb (content message) "!fetchHistory" then
    match guild with
    | None => Some (emit (Reply "Please use this command in a server channel.") st, Returned)
    | Some g =>
        match members_fetch_all g with
        | Some error => Some (st, Thrown error)
        | None =>
            match fetchAllMessagesForGuild fuel (Some g) st with
            | None => None
            | Some (st', _) =>
                Some (emit (Send "Finished fetching all historical messages!") st', Returned)
            end
        end
    end
  else
    let st := processMessage message st in
    if String.eqb (content message) "!stats" then
      if List.length (stats st) =? 0 then
        Some (emit (Send "No data yet!") st, Returned)
      else
        match guild with
        | None => Some (st, Thrown "TypeError: Cannot read properties of null (reading 'members')")
        | Some g =>
            let '(statsMessage, log) := stats_message g (stats st) in
            Some (emit (Send statsMessage) (emit_all log st), Returned)
        end
    else Some (st, Returned).

(* ================================================================== *)
(** ** Vocabulary of the statements *)

(** The category an attachment is counted in, if any: the chain of tests of
    lines 73-84 read as a classification. *)
Definition has_ext (attachment : Attachment) (exts : list string) : bool :=
  match att_name attachment with
  | Some n => existsb (JS.endsWith (JS.toLowerCase n)) exts
  | None => false
  end.

Definition kind (attachment : Attachment) : option Category :=
  if has_ext attachment [".png"; ".jpg"; ".jpeg"]%string then Some images
  else if has_ext attachment [".gif"]%string then Some gifs
  else if has_ext attachment [".mp4"; ".mov"; ".avi"; ".wmv"]%string then Some videos
  else None.

(** The extensions counted in each category. *)
Definition extensions (c : Category) : list string :=
  match c with
  | images => [".png"; ".jpg"; ".jpeg"]%string
  | gifs => [".gif"]%string
  | videos => [".mp4"; ".mov"; ".avi"; ".wmv"]%string
  | messages | links => []
  end.

Fixpoint last_ascii (s : string) : option ascii :=
  match s with
  | EmptyString => None
  | String c EmptyString => Some c
  | String _ r => last_ascii r
  end.

(** [c] is the character [d], or it is the capital letter of which [d] is the
    small one. *)
Definition letter_of (c d : ascii) : Prop :=
  c = d \/ (65 <= nat_of_ascii c <= 90 /\ nat_of_ascii d = nat_of_ascii c + 32).

(** The strings are the same up to the case of the letters A-Z of [s]. *)
Fixpoint ignoring_case (s t : string) : Prop :=
  match s, t with
  | EmptyString, EmptyString => True
  | String c s', String d t' => letter_of c d /\ ignoring_case s' t'
  | _, _ => False
  end.

(** The file name ends with an extension of the category, in any case of its
    letters. *)
Definition has_extension (n : string) (c : Category) : Prop :=
  exists pre e ext,
    n = (pre ++ e)%string /\ In ext (extensions c) /\ ignoring_case e ext.

Definition is_kind (c : Category) (attachment : Attachment) : bool :=
  match kind attachment with
  | Some c' => Category_eqb c c'
  | None => false
  end.

(** Number of attachments counted in category [c]. *)
Definition count_kind (c : Category) (l : list Attachment) : Z :=
  Z.of_nat (List.length (filter (is_kind c) l)).

(** What one processed message adds to each counter of its author. *)
Definition increments (message : Message) (c : Category) : Z :=
  match c with
  | messages => 1%Z
  | links => if JS.linkRegex_test (content message) then 1%Z else 0%Z
  | _ => count_kind c (attachments message)
  end.

(** The text has a link: [http://] or [https://] followed by at least one
    character that is not white space. *)
Definition has_link (s : string) : Prop :=
  exists pre rest,
    (s = (pre ++ "http://" ++ rest)%string \/ s = (pre ++ "https://" ++ rest)%string)
    /\ JS.nonspace_head rest = true.

(** The store after [processMessage] on a message that is not from a bot. *)
Definition counted (message : Message) (s : Store) : Store :=
  let userId := author_id (author message) in
  let s3 := fold_left (count_attachment userId) (attachments message)
                      (incr userId messages (initUserStats message s)) in
  if JS.linkRegex_test (content message) then incr userId links s3 else s3.

(** The record of [userId] exists and holds the five counters. *)
Definition ready (userId : string) (s : Store) : Prop :=
  exists r, lookup userId s = Some r /\ complete r.

(** *** Channels and their histories *)

(** The part of a history (newest message first) that is older than the
    message [i]. *)
Fixpoint older_than (i : string) (history : list Message) : list Message :=
  match history with
  | [] => []
  | m :: h => if String.eqb (msg_id m) i then h else older_than i h
  end.

(** The answers of Discord for a channel whose history, newest message first,
    is [history] and does not change: the [limit] newest messages, or the
    [limit] newest among those older than [before]. *)
Definition history_fetch (history : list Message) (n : nat) (options : FetchOptions)
    : FetchResult :=
  Page (firstn (limit options)
          (match before options with
           | Some i => older_than i history
           | None => history
           end)).

(** The channel answers the requests of one run, from request [n] on, with
    the full pages [pages] and then with [final]. *)
Fixpoint serves (channel : Channel) (n : nat) (lastMessageId : option string)
    (pages : list (list Message)) (final : FetchResult) : Prop :=
  match pages with
  | [] => fetch channel n (next_options lastMessageId) = final
  | page :: pages' =>
      fetch channel n (next_options lastMessageId) = Page page /\
      List.length page = 100 /\
      serves channel (S n) (last_id page) pages' final
  end.

(** The state, the last identifier and the count after the loop has been
    through the full pages [pages]. *)
Fixpoint after_pages (name : string) (lastMessageId : option string) (fetchedCount : nat)
    (pages : list (list Message)) (st : State) : State * option string * nat :=
  match pages with
  | [] => (st, lastMessageId, fetchedCount)
  | page :: pages' =>
      let st := process_all page (emit (Request name (next_options lastMessageId)) st) in
      let fetchedCount := fetchedCount + List.length page in
      after_pages name (last_id page) fetchedCount pages'
                  (emit (Log_fetched (List.length page) fetchedCount) st)
  end.

(** The loop of a channel ends within [fuel] iterations, whatever the state:
    the pages alone decide. *)
Fixpoint halts (fuel : nat) (channel : Channel) (n : nat) (lastMessageId : option string)
    : bool :=
  match fuel with
  | O => false
  | S fuel' =>
      match fetch channel n (next_options lastMessageId) with
      | FetchError _ => true
      | Page page =>
          (List.length page <? 100) || halts fuel' channel (S n) (last_id page)
      end
  end.

(** The identifiers of the text channels, in the order of the cache. *)
Definition text_channels (chs : list (string * Channel)) : list string :=
  map fst (filter (fun e => is_GuildText (ch_type (snd e))) chs).

(** Number of messages of a list written by bots. *)
Definition bots (l : list Message) : Z :=
  Z.of_nat (List.length (filter (fun m => bot (author m)) l)).

(** No counter of the store has gone down. *)
Definition grows (s s' : Store) : Prop :=
  forall u c, (counter s u c <= counter s' u c)%Z.

(** The record of [userId] exists and carries the user name [u]. *)
Definition named (userId u : string) (s : Store) : Prop :=
  exists r, lookup userId s = Some r /\ username r = Some u.

(** *** Leaderboards *)

(** The count of an entry in a category, a missing counter read as 0. *)
Definition count (c : Category) (e : Entry) : Z := value (get_key c (val e)).

(** [a] may stand before [b] in a descending leaderboard. *)
Definition not_below (c : Category) (a b : Entry) : Prop :=
  (count c b <= count c a)%Z.

(** Every record of the store holds the counter [c]. *)
Definition holds_counter (c : Category) (s : Store) : Prop :=
  Forall (fun e => get_key c (snd e) <> None) s.

(** The entries whose count is [v], in the order of the list. *)
Definition with_count (c : Category) (v : Z) (l : list Entry) : list Entry :=
  filter (fun e => (count c e =? v)%Z) l.

(** The lines of the entries [l] when every line carries the label [rank]. *)
Fixpoint lines_labelled (rank : Z) (l : list Entry) (category : Category)
    (guild : Guild) : string :=
  match l with
  | [] => EmptyString
  | e :: l' =>
      (line rank (fst (resolve_name guild (key e) (val e))) (get_key category (val e))
       ++ lines_labelled rank l' category guild)%string
  end.

(** The lines of the entries [l] when they are numbered from [rank] on. *)
Fixpoint lines_ranked (rank : Z) (l : list Entry) (category : Category)
    (guild : Guild) : string :=
  match l with
  | [] => EmptyString
  | e :: l' =>
      (line rank (fst (resolve_name guild (key e) (val e))) (get_key category (val e))
       ++ lines_ranked (rank + 1) l' category guild)%string
  end.

(** *** Sequences of messages *)

(** The message is written by the human [u]. *)
Definition by_human (u : string) (m : Message) : bool :=
  negb (bot (author m)) && String.eqb u (author_id (author m)).

(** What the messages of [l] add together to the counter [c] of [u]. *)
Fixpoint added (l : list Message) (u : string) (c : Category) : Z :=
  match l with
  | [] => 0%Z
  | m :: l' => ((if by_human u m then increments m c else 0) + added l' u c)%Z
  end.

(** Number of messages of a list written by humans. *)
Definition humans (l : list Message) : nat :=
  List.length (filter (fun m => negb (bot (author m))) l).

(** The authors of the store, in the order of [Object.keys]. *)
Definition keys (s : Store) : list string := map fst s.

Definition is_request (e : Event) : bool :=
  match e with Request _ _ => true | _ => false end.

(** Number of requests to Discord among the events. *)
Definition requests (l : list Event) : nat := List.length (filter is_request l).

(** Text channels answering from fixed histories, given as identifier, name
    and history. *)
Definition history_channels (l : list (string * string * list Message))
    : list (string * Channel) :=
  map (fun e => (fst (fst e), mkChannel (snd (fst e)) GuildText (history_fetch (snd e)))) l.

(** Two states with the same store, file and number of writes: they differ
    by what was logged at most. *)
Definition same_data (st1 st2 : State) : Prop :=
  stats st1 = stats st2 /\ file st1 = file st2 /\ writes st1 = writes st2.

(** The first of the values that is a string and not empty, or [d]. *)
Fixpoint first_truthy (l : list (option string)) (d : string) : string :=
  match l with
  | [] => d
  | v :: l' => if JS.truthy v then match v with Some x => x | None => d end
               else first_truthy l' d
  end.

(** The message is one of the five commands of the handler. *)
Definition is_command (m : Message) : bool :=
  existsb (String.eqb (content m))
          ["!ping"; "!zain"; "!arjun"; "!fetchHistory"; "!stats"]%string.

(** The handler run on the messages of [l], one after the other. *)
Fixpoint live (fuel : nat) (guild : option Guild) (l : list Message) (st : State)
    : option State :=
  match l with
  | [] => Some st
  | m :: l' =>
      match on_messageCreate fuel guild m st with
      | Some (st', _) => live fuel guild l' st'
      | None => None
      end
  end.

(** The identifier the loop of a channel holds when it has been through the
    messages [done]: none before the first page. *)
Definition reached (done : list Message) : option string :=
  match done with [] => None | _ => last_id done end.

(** A history the back-fill can page through: the identifiers are distinct
    and none is empty. *)
Definition well_formed (history : list Message) : Prop :=
  NoDup (map msg_id history) /\ Forall (fun m => msg_id m <> ""%string) history.

(* ================================================================== *)
(** ** Sample data *)

Module Sample.

Local Open Scope string_scope.

Definition alice : Author := mkAuthor "302050872383242240" "alice" false.
Definition bob : Author := mkAuthor "417283190844293120" "bob" false.
Definition carol : Author := mkAuthor "523111907842293761" "carol" false.
Definition robot : Author := mkAuthor "159985870458322944" "MEE6" true.

(** A record of an older snapshot, without the keys [gifs] and [links]. *)
Definition old_record : UserStats :=
  mkUserStats (Some "alice_old") (Some 7%Z) (Some 2%Z) None (Some 1%Z) None.

Definition old_store : Store :=
  [(author_id bob, mkUserStats (Some "bob") (Some 3%Z) (Some 0%Z) (Some 0%Z) (Some 0%Z) (Some 1%Z));
   (author_id alice, old_record)].

Definition old_state : State := mkState old_store (Some old_store) 4 [].

Definition empty_state : State := mkState [] None 0 [].

Definition plain : Message := mkMessage "1001" alice "good morning" [].

Definition two_links : Message :=
  mkMessage "1002" alice "see http://a.example/x and https://b.example/y" [].

Definition four_files : Message :=
  mkMessage "1003" alice "holiday"
    [mkAttachment (Some "a.png"); mkAttachment (Some "b.gif");
     mkAttachment (Some "c.mp4"); mkAttachment (Some "d.png")].

Definition from_robot : Message :=
  mkMessage "1004" robot "level up! https://mee6.xyz" [mkAttachment (Some "rank.png")].

(** A history of 250 messages, newest first; one in ten is from a bot. *)
Definition nat_id (k : nat) : string := NilEmpty.string_of_uint (Nat.to_uint k).

Definition history_message (k : nat) : Message :=
  mkMessage (nat_id (4000 - k))
            (if Nat.eqb (k mod 10) 0 then robot
             else if Nat.eqb (k mod 3) 0 then bob else alice)
            "hi" [].

Definition history250 : list Message := map history_message (seq 1 250).

Definition general : Channel :=
  mkChannel "general" GuildText (history_fetch history250).

Definition page100 : list Message := firstn 100 history250.

(** A channel whose second request fails. *)
Definition flaky : Channel :=
  mkChannel "flaky" GuildText
    (fun n _ => match n with O => Page page100 | S _ => FetchError "503" end).

Definition lounge : Channel := mkChannel "lounge" GuildVoice (fun _ _ => Page []).

Definition random : Channel :=
  mkChannel "random" GuildText (history_fetch [plain; two_links]).

Definition members_none : string -> option Member := fun _ => None.

Definition guild3 : Guild :=
  mkGuild [("901", lounge); ("902", flaky); ("903", random)]
          members_none (fun _ => Rejected (Some 10007%Z) "Unknown Member") None.

Definition record (u : string) (m : Z) : UserStats :=
  mkUserStats (Some u) (Some m) (Some 0%Z) (Some 0%Z) (Some 0%Z) (Some 0%Z).

(** Three authors with 5, 5 and 3 messages. *)
Definition abc_store : Store :=
  [(author_id alice, record "alice" 5); (author_id bob, record "bob" 5);
   (author_id carol, record "carol" 3)].

(** A store loaded from an older snapshot: the record of bob has no key
    [messages] and bob has not written since. *)
Definition legacy_store : Store :=
  [(author_id alice, record "alice" 3);
   (author_id bob, mkUserStats (Some "bob") None (Some 4%Z) None (Some 0%Z) None);
   (author_id carol, record "carol" 5)].

Definition abc_store_state : State := mkState abc_store (Some abc_store) 13 [].

(** A guild whose cache knows alice; every other member has to be fetched,
    which fails with an error that is not "Unknown Member". *)
Definition guild1 : Guild :=
  mkGuild [("900", mkChannel "general" GuildText
                     (history_fetch [mkMessage "1005" alice "!fetchHistory" []]))]
          (fun u => if String.eqb u (author_id alice)
                    then Some (mkMember "Alice" "alice") else None)
          (fun _ => Rejected None "timeout") None.

Definition stats_command : Message := mkMessage "1006" carol "!stats" [].


(** Two text channels with fixed histories. *)
Definition two_histories : list (string * string * list Message) :=
  [("900", "general", history250); ("903", "random", [plain; two_links])].

Definition guild2 : Guild :=
  mkGuild (history_channels two_histories) members_none
          (fun _ => Rejected (Some 10007%Z) "Unknown Member") None.

Definition bot_stats_command : Message := mkMessage "1007" robot "!stats" [].

Definition capitals : Message :=
  mkMessage "1008" alice "HOLIDAY"
    [mkAttachment (Some "A.PNG"); mkAttachment (Some "b.GiF");
     mkAttachment (Some "C.Mp4"); mkAttachment (Some "d.JPEG");
     mkAttachment (Some "notes.TXT"); mkAttachment None].

End Sample.

(* ================================================================== *)
(** ** The store *)

Section StoreFacts.

Variable userId : string.

Lemma lookup_update_same f s :
  lookup userId (update userId f s) = option_map f (lookup userId s).
Proof.
  induction s as [|[k r] s IH]; simpl; [reflexivity|].
  destruct (String.eqb userId k) eqn:E; simpl; rewrite E; auto.
Qed.

Lemma lookup_update_other f s u :
  u <> userId -> lookup u (update userId f s) = lookup u s.
Proof.
  intros Hne. induction s as [|[k r] s IH]; simpl; [reflexivity|].
  destruct (String.eqb userId k) eqn:E; simpl.
  - apply String.eqb_eq in E. subst k.
    apply String.eqb_neq in Hne. rewrite Hne. reflexivity.
  - rewrite IH. reflexivity.
Qed.

Lemma lookup_app_new s r u :
  lookup userId s = None ->
  lookup u (s ++ [(userId, r)]) =
  if String.eqb u userId then Some r else lookup u s.
Proof.
  intros Hnone. induction s as [|[k r0] s IH]; simpl in *.
  - destruct (String.eqb u userId); reflexivity.
  - destruct (String.eqb userId k) eqn:E; [discriminate|].
    destruct (String.eqb u k) eqn:E'.
    + apply String.eqb_eq in E'. subst k.
      rewrite String.eqb_sym, E. reflexivity.
    + apply IH, Hnone.
Qed.

Lemma update_fixed f s r :
  lookup userId s = Some r -> f r = r -> update userId f s = s.
Proof.
  induction s as [|[k r0] s IH]; simpl; intros Hl Hf; [reflexivity|].
  destruct (String.eqb userId k).
  - injection Hl as ->. rewrite Hf. reflexivity.
  - rewrite IH; auto.
Qed.

Lemma total_update c f s r :
  lookup userId s = Some r ->
  total c (update userId f s) =
  (total c s - value (get_key c r) + value (get_key c (f r)))%Z.
Proof.
  induction s as [|[k r0] s IH]; simpl; intros Hl; [discriminate|].
  destruct (String.eqb userId k); simpl.
  - injection Hl as ->. lia.
  - rewrite IH by assumption. lia.
Qed.

Lemma total_app c s r :
  total c (s ++ [(userId, r)]) = (total c s + value (get_key c r))%Z.
Proof.
  induction s as [|[k r0] s IH]; simpl; [lia|]. rewrite IH. lia.
Qed.

End StoreFacts.

Lemma get_set_same c v r : get_key c (set_key c v r) = v.
Proof. destruct c; reflexivity. Qed.

Lemma get_set_other c c' v r : c <> c' -> get_key c' (set_key c v r) = get_key c' r.
Proof. destruct c, c'; intros H; try reflexivity; congruence. Qed.

Lemma username_set c v r : username (set_key c v r) = username r.
Proof. destruct c; reflexivity. Qed.

Lemma Category_eqb_eq a b : Category_eqb a b = true <-> a = b.
Proof. destruct a, b; simpl; split; intros H; congruence. Qed.

Lemma Category_eqb_sym a b : Category_eqb a b = Category_eqb b a.
Proof. destruct a, b; reflexivity. Qed.

Lemma Category_eq_dec (a b : Category) : {a = b} + {a <> b}.
Proof. decide equality. Qed.

(** *** [initUserStats] *)

Lemma get_repair_key c c' r :
  get_key c' (repair_key c r) =
  if Category_eqb c c' then Some (value (get_key c' r)) else get_key c' r.
Proof.
  unfold repair_key.
  destruct (Category_eqb c c') eqn:E.
  - apply Category_eqb_eq in E. subst c'.
    destruct (get_key c r) eqn:G; [rewrite G|rewrite get_set_same]; reflexivity.
  - destruct (get_key c r); [reflexivity|].
    apply get_set_other. intros ->.
    assert (Category_eqb c' c' = true) by (apply Category_eqb_eq; reflexivity).
    congruence.
Qed.

Lemma get_repair u c r : get_key c (repair u r) = Some (value (get_key c r)).
Proof.
  unfold repair. rewrite !get_repair_key.
  destruct c; simpl;
    destruct r as [n [m|] [i|] [g|] [v|] [l|]]; reflexivity.
Qed.

Lemma username_repair u r : username (repair u r) = Some u.
Proof.
  unfold repair, repair_key.
  repeat match goal with
         | |- context [match ?x with _ => _ end] => destruct x
         end; rewrite ?username_set; reflexivity.
Qed.

Lemma repair_fixed u r :
  complete r -> username r = Some u -> repair u r = r.
Proof.
  intros Hc Hu. destruct r as [n m i g v l]. simpl in Hu. subst n.
  pose proof (Hc messages) as Hm. pose proof (Hc images) as Hi.
  pose proof (Hc gifs) as Hg. pose proof (Hc videos) as Hv.
  pose proof (Hc links) as Hl. simpl in *.
  destruct m, i, g, v, l; try congruence. reflexivity.
Qed.

Lemma complete_repair u r : complete (repair u r).
Proof. intros c. rewrite get_repair. discriminate. Qed.

Lemma complete_new u : complete (new_record u).
Proof. intros c. destruct c; discriminate. Qed.

(** The record of the author after [initUserStats]. *)
Lemma initUserStats_author message s :
  lookup (author_id (author message)) (initUserStats message s) =
  Some (match lookup (author_id (author message)) s with
        | Some r => repair (author_username (author message)) r
        | None => new_record (author_username (author message))
        end).
Proof.
  unfold initUserStats.
  destruct (lookup (author_id (author message)) s) eqn:L.
  - rewrite lookup_update_same, L. reflexivity.
  - rewrite (lookup_app_new _ _ _ _ L), String.eqb_refl. reflexivity.
Qed.

Lemma initUserStats_other message s u :
  u <> author_id (author message) ->
  lookup u (initUserStats message s) = lookup u s.
Proof.
  intros Hne. unfold initUserStats.
  destruct (lookup (author_id (author message)) s) eqn:L.
  - apply lookup_update_other, Hne.
  - rewrite (lookup_app_new _ _ _ _ L).
    destruct (String.eqb u (author_id (author message))) eqn:E; [|reflexivity].
    apply String.eqb_eq in E. contradiction.
Qed.

Lemma initUserStats_ready message s :
  ready (author_id (author message)) (initUserStats message s).
Proof.
  eexists. split; [apply initUserStats_author|].
  destruct (lookup _ s); [apply complete_repair|apply complete_new].
Qed.

(** [initUserStats] changes the value of no counter. *)
Lemma initUserStats_counter message s u c :
  counter (initUserStats message s) u c = counter s u c.
Proof.
  unfold counter.
  destruct (String.eqb u (author_id (author message))) eqn:E.
  - apply String.eqb_eq in E. subst u. rewrite initUserStats_author.
    destruct (lookup _ s).
    + rewrite get_repair. reflexivity.
    + destruct c; reflexivity.
  - apply String.eqb_neq in E. rewrite initUserStats_other by assumption.
    reflexivity.
Qed.

Lemma initUserStats_total message s c :
  total c (initUserStats message s) = total c s.
Proof.
  unfold initUserStats.
  destruct (lookup (author_id (author message)) s) eqn:L.
  - rewrite (total_update _ _ _ _ _ L), get_repair. simpl. lia.
  - rewrite total_app. destruct c; simpl; lia.
Qed.

Lemma initUserStats_idem message s :
  initUserStats message (initUserStats message s) = initUserStats message s.
Proof.
  unfold initUserStats at 1. rewrite initUserStats_author.
  eapply update_fixed; [apply initUserStats_author|].
  destruct (lookup _ s).
  - apply repair_fixed; [apply complete_repair|apply username_repair].
  - reflexivity.
Qed.

(** *** [stats[userId].c++] *)

Lemma incr_ready u c s u' : ready u' s -> ready u' (incr u c s).
Proof.
  intros [r [L C]]. unfold ready, incr.
  destruct (String.eqb u' u) eqn:E.
  - apply String.eqb_eq in E. subst u'.
    rewrite lookup_update_same, L. simpl. eexists. split; [reflexivity|].
    intros c'. destruct (Category_eq_dec c c') as [->|N].
    + rewrite get_set_same. specialize (C c'). destruct (get_key c' r); [discriminate|congruence].
    + rewrite get_set_other by assumption. apply C.
  - apply String.eqb_neq in E. rewrite lookup_update_other by assumption.
    exists r. auto.
Qed.

Lemma incr_counter u c s u' c' :
  ready u s ->
  counter (incr u c s) u' c' =
  (counter s u' c' + if String.eqb u' u && Category_eqb c c' then 1 else 0)%Z.
Proof.
  intros [r [L C]]. unfold counter, incr.
  destruct (String.eqb u' u) eqn:E; simpl.
  - apply String.eqb_eq in E. subst u'.
    rewrite lookup_update_same, L. simpl.
    destruct (Category_eqb c c') eqn:EC.
    + apply Category_eqb_eq in EC. subst c'. rewrite get_set_same.
      specialize (C c). destruct (get_key c r); [simpl; lia|congruence].
    + rewrite get_set_other; [lia|].
      intros ->. assert (Category_eqb c' c' = true) by (apply Category_eqb_eq; reflexivity).
      congruence.
  - apply String.eqb_neq in E. rewrite lookup_update_other by assumption. lia.
Qed.

Lemma incr_lookup_other u c s u' :
  u' <> u -> lookup u' (incr u c s) = lookup u' s.
Proof. intros H. apply lookup_update_other, H. Qed.

Lemma incr_total u c s c' :
  ready u s ->
  total c' (incr u c s) = (total c' s + if Category_eqb c c' then 1 else 0)%Z.
Proof.
  intros [r [L C]]. unfold incr. rewrite (total_update _ _ _ _ _ L).
  destruct (Category_eqb c c') eqn:EC.
  - apply Category_eqb_eq in EC. subst c'. rewrite get_set_same.
    specialize (C c). destruct (get_key c r); [simpl; lia|congruence].
  - rewrite get_set_other; [lia|].
    intros ->. assert (Category_eqb c' c' = true) by (apply Category_eqb_eq; reflexivity).
    congruence.
Qed.

(** *** The attachments *)

Lemma count_attachment_kind u s a :
  count_attachment u s a =
  match kind a with Some c => incr u c s | None => s end.
Proof.
  unfold count_attachment, kind, has_ext.
  destruct (att_name a) as [n|]; simpl.
  - rewrite !orb_false_r, <- !orb_assoc.
    destruct (JS.endsWith (JS.toLowerCase n) ".png"
              || (JS.endsWith (JS.toLowerCase n) ".jpg"
                  || JS.endsWith (JS.toLowerCase n) ".jpeg")); [reflexivity|].
    destruct (JS.endsWith (JS.toLowerCase n) ".gif"); [reflexivity|].
    destruct (JS.endsWith (JS.toLowerCase n) ".mp4"
              || (JS.endsWith (JS.toLowerCase n) ".mov"
                  || (JS.endsWith (JS.toLowerCase n) ".avi"
                      || JS.endsWith (JS.toLowerCase n) ".wmv"))); reflexivity.
  - reflexivity.
Qed.

Lemma kind_attachment a c : kind a = Some c -> c = images \/ c = gifs \/ c = videos.
Proof.
  unfold kind. repeat match goal with |- context [if ?b then _ else _] => destruct b end;
    intros H; inversion H; auto.
Qed.

Lemma count_kind_cons c a l :
  count_kind c (a :: l) = ((if is_kind c a then 1 else 0) + count_kind c l)%Z.
Proof.
  unfold count_kind. simpl. destruct (is_kind c a); simpl List.length; lia.
Qed.

Lemma fold_attachments u l : forall s,
  ready u s ->
  ready u (fold_left (count_attachment u) l s) /\
  (forall u' c',
     counter (fold_left (count_attachment u) l s) u' c' =
     (counter s u' c' + if String.eqb u' u then count_kind c' l else 0)%Z) /\
  (forall u', u' <> u ->
     lookup u' (fold_left (count_attachment u) l s) = lookup u' s) /\
  (forall c', total c' (fold_left (count_attachment u) l s) =
              (total c' s + count_kind c' l)%Z).
Proof.
  induction l as [|a l IH]; intros s R; simpl.
  - repeat split; auto; intros; unfold count_kind; simpl;
      try destruct (String.eqb u' u); lia.
  - assert (R' : ready u (count_attachment u s a)).
    { rewrite count_attachment_kind. destruct (kind a); [apply incr_ready|]; exact R. }
    destruct (IH _ R') as [R2 [Hc [Hl Ht]]].
    split; [exact R2|]. split; [|split].
    + intros u' c'. rewrite Hc, count_kind_cons, count_attachment_kind.
      unfold is_kind. destruct (kind a) as [c|].
      * rewrite incr_counter by exact R.
        rewrite (Category_eqb_sym c' c).
        destruct (String.eqb u' u), (Category_eqb c c'); cbn [andb]; lia.
      * destruct (String.eqb u' u); lia.
    + intros u' Hne. rewrite Hl by assumption. rewrite count_attachment_kind.
      destruct (kind a); [apply incr_lookup_other, Hne|reflexivity].
    + intros c'. rewrite Ht, count_kind_cons, count_attachment_kind.
      unfold is_kind. destruct (kind a) as [c|]; [|lia].
      rewrite incr_total by exact R.
      rewrite (Category_eqb_sym c' c).
      destruct (Category_eqb c c'); lia.
Qed.

Lemma count_kind_other c l : c = messages \/ c = links -> count_kind c l = 0%Z.
Proof.
  intros H. unfold count_kind. induction l as [|a l IH]; [reflexivity|].
  simpl. unfold is_kind at 1. destruct (kind a) as [c'|] eqn:K; [|exact IH].
  apply kind_attachment in K.
  destruct H as [-> | ->], K as [-> | [-> | ->]]; exact IH.
Qed.

(** *** [processMessage] *)

Lemma processMessage_human message st :
  bot (author message) = false ->
  processMessage message st = saveStats (with_stats (counted message (stats st)) st).
Proof.
  intros B. unfold processMessage, counted. rewrite B.
  destruct (attachments message); reflexivity.
Qed.

Lemma counted_spec message s :
  let u := author_id (author message) in
  ready u (counted message s) /\
  (forall u' c,
     counter (counted message s) u' c =
     (counter s u' c + if String.eqb u' u then increments message c else 0)%Z) /\
  (forall u', u' <> u -> lookup u' (counted message s) = lookup u' s) /\
  (forall c, total c (counted message s) = (total c s + increments message c)%Z).
Proof.
  intros u. unfold counted. fold u.
  pose proof (initUserStats_ready message s) as R0. fold u in R0.
  pose proof (incr_ready u messages _ u R0) as R1.
  destruct (fold_attachments u (attachments message) _ R1) as [R2 [Hc [Hl Ht]]].
  assert (Hm : count_kind messages (attachments message) = 0%Z)
    by (apply count_kind_other; auto).
  assert (Hk : count_kind links (attachments message) = 0%Z)
    by (apply count_kind_other; auto).
  destruct (JS.linkRegex_test (content message)) eqn:T.
  - split; [apply incr_ready, R2|]. split; [|split].
    + intros u' c. rewrite incr_counter by exact R2.
      rewrite Hc, incr_counter by exact R0. rewrite initUserStats_counter.
      unfold increments. rewrite T.
      destruct (String.eqb u' u), c; cbn [andb Category_eqb]; lia.
    + intros u' Hne. rewrite incr_lookup_other by assumption.
      rewrite Hl by assumption. rewrite incr_lookup_other by assumption.
      apply initUserStats_other, Hne.
    + intros c. rewrite incr_total by exact R2.
      rewrite Ht, incr_total by exact R0. rewrite initUserStats_total.
      unfold increments. rewrite T. destruct c; cbn [Category_eqb]; lia.
  - split; [exact R2|]. split; [|split].
    + intros u' c. rewrite Hc, incr_counter by exact R0.
      rewrite initUserStats_counter. unfold increments. rewrite T.
      destruct (String.eqb u' u), c; cbn [andb Category_eqb]; lia.
    + intros u' Hne. rewrite Hl by assumption.
      rewrite incr_lookup_other by assumption.
      apply initUserStats_other, Hne.
    + intros c. rewrite Ht, incr_total by exact R0. rewrite initUserStats_total.
      unfold increments. rewrite T. destruct c; cbn [Category_eqb]; lia.
Qed.

(** *** Strings *)

Lemma prefix_app p : forall s,
  prefix p s = true <-> exists r, s = (p ++ r)%string.
Proof.
  induction p as [|a p IH]; intros s.
  - destruct s; simpl; split; eauto.
  - destruct s as [|b s]; simpl.
    + split; [discriminate|]. intros [r H]. discriminate.
    + destruct (ascii_dec a b) as [->|N].
      * rewrite IH. split; intros [r H]; exists r; congruence.
      * split; [discriminate|]. intros [r H]. congruence.
Qed.

Lemma link_here_iff s :
  JS.link_here s = true <->
  exists rest,
    (s = ("http://" ++ rest)%string \/ s = ("https://" ++ rest)%string)
    /\ JS.nonspace_head rest = true.
Proof.
  unfold JS.link_here. rewrite orb_true_iff, !andb_true_iff, !prefix_app. split.
  - intros [[[r ->] H] | [[r ->] H]]; exists r; auto.
  - intros [r [[-> | ->] H]]; [right | left]; split; eauto.
Qed.

(** The test of the regular expression finds a link exactly when the text
    has one. *)
Lemma linkRegex_test_iff s : JS.linkRegex_test s = true <-> has_link s.
Proof.
  unfold has_link. split.
  - induction s as [|c s IH].
    + simpl. discriminate.
    + change (JS.linkRegex_test (String c s))
        with (JS.link_here (String c s) || JS.linkRegex_test s).
      rewrite orb_true_iff. intros [H | H].
      * apply link_here_iff in H. destruct H as [r H]. exists EmptyString, r. exact H.
      * destruct (IH H) as [pre [rest [[-> | ->] N]]];
          exists (String c pre), rest; auto.
  - intros [pre [rest [E N]]]. revert s E.
    induction pre as [|c pre IH]; intros s E.
    + assert (L : JS.link_here s = true) by (apply link_here_iff; exists rest; auto).
      destruct s as [|c s]; [discriminate L|].
      change (JS.linkRegex_test (String c s))
        with (JS.link_here (String c s) || JS.linkRegex_test s).
      rewrite L. reflexivity.
    + destruct s as [|c' s]; [destruct E; discriminate|].
      change (JS.linkRegex_test (String c' s))
        with (JS.link_here (String c' s) || JS.linkRegex_test s).
      rewrite orb_true_iff. right. apply IH.
      destruct E as [E | E]; injection E as _ E; auto.
Qed.

Lemma substring_all s : substring 0 (String.length s) s = s.
Proof. induction s as [|c s IH]; simpl; [reflexivity|rewrite IH; reflexivity]. Qed.

Lemma substring_app pre suf :
  substring (String.length pre) (String.length suf) (pre ++ suf) = suf.
Proof. induction pre as [|c pre IH]; simpl; [apply substring_all|exact IH]. Qed.

Lemma string_length_app (a b : string) :
  String.length (a ++ b) = String.length a + String.length b.
Proof. induction a as [|c a IH]; simpl; [reflexivity|rewrite IH; reflexivity]. Qed.

Lemma substring_split s : forall i,
  i <= String.length s ->
  s = (substring 0 i s ++ substring i (String.length s - i) s)%string.
Proof.
  induction s as [|c s IH]; intros i Hi; simpl in *.
  - destruct i; reflexivity.
  - destruct i as [|i]; simpl.
    + rewrite substring_all. reflexivity.
    + f_equal. apply IH. lia.
Qed.

(** [endsWith]: the string is some text followed by the suffix. *)
Lemma endsWith_iff s suffix :
  JS.endsWith s suffix = true <-> exists pre, s = (pre ++ suffix)%string.
Proof.
  unfold JS.endsWith. rewrite andb_true_iff, Nat.leb_le, String.eqb_eq. split.
  - intros [Hk Hs].
    exists (substring 0 (String.length s - String.length suffix) s).
    pose proof (substring_split s (String.length s - String.length suffix)) as H.
    replace (String.length s - (String.length s - String.length suffix))
      with (String.length suffix) in H by lia.
    rewrite Hs in H. apply H. lia.
  - intros [pre ->]. rewrite string_length_app. split; [lia|].
    replace (String.length pre + String.length suffix - String.length suffix)
      with (String.length pre) by lia.
    apply substring_app.
Qed.

Lemma last_ascii_app pre suf :
  suf <> EmptyString -> last_ascii (pre ++ suf) = last_ascii suf.
Proof.
  intros Hs. induction pre as [|c pre IH]; [reflexivity|].
  simpl. destruct (pre ++ suf)%string eqn:E; [|exact IH].
  destruct pre; simpl in E; [contradiction|discriminate].
Qed.

Lemma endsWith_last s suffix :
  suffix <> EmptyString -> JS.endsWith s suffix = true ->
  last_ascii s = last_ascii suffix.
Proof.
  intros Hs H. apply endsWith_iff in H. destruct H as [pre ->].
  apply last_ascii_app, Hs.
Qed.

(** An attachment is counted in the one category that lists its extension. *)
Lemma kind_extensions a c :
  kind a = Some c <-> has_ext a (extensions c) = true.
Proof.
  unfold kind, has_ext. destruct (att_name a) as [n|].
  2:{ destruct c; simpl; split; discriminate. }
  set (f := JS.toLowerCase n).
  assert (L : forall e, e <> EmptyString -> JS.endsWith f e = true ->
                        last_ascii f = last_ascii e)
    by (intros e; apply endsWith_last).
  destruct c; simpl; rewrite ?orb_false_r;
    repeat match goal with
           | |- context [JS.endsWith f ?e] =>
               let E := fresh "E" in
               destruct (JS.endsWith f e) eqn:E;
               [apply (L e) in E; [|discriminate]|clear E]
           end;
    simpl in *; split; intros; congruence.
Qed.

Lemma is_kind_extensions c a :
  is_kind c a = has_ext a (extensions c).
Proof.
  unfold is_kind. destruct (has_ext a (extensions c)) eqn:E.
  - apply kind_extensions in E. rewrite E. apply Category_eqb_eq. reflexivity.
  - destruct (kind a) as [c'|] eqn:K; [|reflexivity].
    destruct (Category_eqb c c') eqn:EC; [|reflexivity].
    apply Category_eqb_eq in EC. subst c'.
    apply kind_extensions in K. congruence.
Qed.

(* ================================================================== *)
(** ** Initialisation and counting of one message *)

(** C3. For a stored record that lacks some of the five counter keys,
    [initUserStats] sets each missing key to 0 and keeps each present counter;
    the user name of the record becomes the current one of the author; and
    a second call in succession changes nothing more. *)
Theorem initUserStats_repairs_missing_keys :
  forall message s r,
    lookup (author_id (author message)) s = Some r ->
    exists r',
      lookup (author_id (author message)) (initUserStats message s) = Some r' /\
      (forall c, get_key c r = None -> get_key c r' = Some 0%Z) /\
      (forall c v, get_key c r = Some v -> get_key c r' = Some v) /\
      username r' = Some (author_username (author message)) /\
      initUserStats message (initUserStats message s) = initUserStats message s.
Proof.
  intros message s r L.
  exists (repair (author_username (author message)) r).
  split; [rewrite initUserStats_author, L; reflexivity|].
  split; [intros c G; rewrite get_repair, G; reflexivity|].
  split; [intros c v G; rewrite get_repair, G; reflexivity|].
  split; [apply username_repair|apply initUserStats_idem].
Qed.

Lemma initUserStats_repairs_missing_keys_witness :
  lookup (author_id (author Sample.plain)) Sample.old_store = Some Sample.old_record /\
  exists r',
    lookup (author_id (author Sample.plain))
           (initUserStats Sample.plain Sample.old_store) = Some r' /\
    (forall c, get_key c Sample.old_record = None -> get_key c r' = Some 0%Z) /\
    (forall c v, get_key c Sample.old_record = Some v -> get_key c r' = Some v) /\
    username r' = Some "alice"%string /\
    initUserStats Sample.plain (initUserStats Sample.plain Sample.old_store)
    = initUserStats Sample.plain Sample.old_store.
Proof.
  split; [reflexivity|].
  apply (initUserStats_repairs_missing_keys Sample.plain Sample.old_store Sample.old_record).
  reflexivity.
Defined.

(** C4. A message of a bot leaves the whole state as it is: the store, the
    file and the number of writes. *)
Theorem processMessage_ignores_bots :
  forall message st,
    bot (author message) = true -> processMessage message st = st.
Proof. intros message st B. unfold processMessage. rewrite B. reflexivity. Qed.

Lemma processMessage_ignores_bots_witness :
  bot (author Sample.from_robot) = true /\
  processMessage Sample.from_robot Sample.old_state = Sample.old_state.
Proof.
  split; [reflexivity|].
  apply (processMessage_ignores_bots Sample.from_robot Sample.old_state). reflexivity.
Defined.

(** C5. A message of a human with no attachment and no link adds 1 to the
    [messages] counter of its author; the other four counters of the author
    keep their value and the records of all other authors are untouched. *)
Theorem processMessage_plain_message :
  forall message st,
    bot (author message) = false ->
    attachments message = [] ->
    ~ has_link (content message) ->
    let u := author_id (author message) in
    let s' := stats (processMessage message st) in
    counter s' u messages = (counter (stats st) u messages + 1)%Z /\
    (forall c, c <> messages -> counter s' u c = counter (stats st) u c) /\
    (forall u', u' <> u -> lookup u' s' = lookup u' (stats st)).
Proof.
  intros message st B A N u s'. subst s'.
  rewrite processMessage_human by exact B. simpl stats.
  destruct (counted_spec message (stats st)) as [_ [Hc [Hl _]]]. fold u in Hc, Hl.
  assert (T : JS.linkRegex_test (content message) = false).
  { destruct (JS.linkRegex_test (content message)) eqn:T; [|reflexivity].
    apply linkRegex_test_iff in T. contradiction. }
  split; [|split].
  - rewrite Hc, String.eqb_refl. reflexivity.
  - intros c Hne. rewrite Hc, String.eqb_refl. unfold increments.
    rewrite T, A. destruct c; try congruence; unfold count_kind; simpl; lia.
  - exact Hl.
Qed.

Lemma processMessage_plain_message_witness :
  let u := author_id Sample.alice in
  let s' := stats (processMessage Sample.plain Sample.old_state) in
  counter s' u messages = 8%Z /\
  (forall c, c <> messages -> counter s' u c = counter Sample.old_store u c) /\
  (forall u', u' <> u -> lookup u' s' = lookup u' Sample.old_store).
Proof.
  apply (processMessage_plain_message Sample.plain Sample.old_state).
  - reflexivity.
  - reflexivity.
  - intros H. apply linkRegex_test_iff in H. vm_compute in H. discriminate H.
Defined.

(** C6. A message of a human whose text has a link adds exactly 1 to the
    [links] counter of its author, however many links the text has. *)
Theorem processMessage_link_presence :
  forall message st,
    bot (author message) = false ->
    has_link (content message) ->
    let u := author_id (author message) in
    counter (stats (processMessage message st)) u links
    = (counter (stats st) u links + 1)%Z.
Proof.
  intros message st B H u.
  rewrite processMessage_human by exact B. simpl stats.
  destruct (counted_spec message (stats st)) as [_ [Hc _]]. fold u in Hc.
  rewrite Hc, String.eqb_refl. unfold increments.
  apply linkRegex_test_iff in H. rewrite H. reflexivity.
Qed.

Lemma processMessage_link_presence_witness :
  has_link (content Sample.two_links) /\
  counter (stats (processMessage Sample.two_links Sample.old_state))
          (author_id Sample.alice) links = 1%Z.
Proof.
  assert (H : has_link (content Sample.two_links)).
  { exists "see "%string, "a.example/x and https://b.example/y"%string.
    split; [left; reflexivity|reflexivity]. }
  split; [exact H|].
  apply (processMessage_link_presence Sample.two_links Sample.old_state);
    [reflexivity|exact H].
Defined.

Lemma toLowerCase_app a b :
  JS.toLowerCase (a ++ b) = (JS.toLowerCase a ++ JS.toLowerCase b)%string.
Proof. induction a as [|x a IH]; simpl; [reflexivity|rewrite IH; reflexivity]. Qed.

Lemma toLowerCase_split p q : forall n,
  JS.toLowerCase n = (p ++ q)%string ->
  exists pre e, n = (pre ++ e)%string /\ JS.toLowerCase pre = p /\ JS.toLowerCase e = q.
Proof.
  induction p as [|x p IH]; intros n H.
  - exists EmptyString, n. auto.
  - destruct n as [|y n]; [discriminate|]. simpl in H. injection H as Hx H.
    destruct (IH n H) as [pre [e [-> [Hp He]]]].
    exists (String y pre), e. simpl. rewrite Hp, Hx. auto.
Qed.

Lemma lower_letter_of x : letter_of x (JS.lower x).
Proof.
  unfold letter_of, JS.lower.
  destruct ((65 <=? nat_of_ascii x) && (nat_of_ascii x <=? 90)) eqn:U; [|left; reflexivity].
  apply andb_true_iff in U. destruct U as [U1 U2].
  apply Nat.leb_le in U1. apply Nat.leb_le in U2.
  right. split; [lia|]. apply nat_ascii_embedding. lia.
Qed.

Lemma letter_of_lower x d : letter_of x d -> JS.lower d = d -> JS.lower x = d.
Proof.
  intros [-> | [[U1 U2] E]] L; [exact L|].
  unfold JS.lower. apply Nat.leb_le in U1. apply Nat.leb_le in U2.
  rewrite U1, U2. simpl. rewrite <- E. apply ascii_nat_embedding.
Qed.

Lemma ignoring_case_lower : forall e ext,
  ignoring_case e ext -> JS.toLowerCase ext = ext -> JS.toLowerCase e = ext.
Proof.
  induction e as [|x e IH]; intros [|d ext] H L; simpl in *; try contradiction.
  - reflexivity.
  - destruct H as [Hx He]. injection L as Ld Lt.
    rewrite (letter_of_lower x d Hx Ld), (IH ext He Lt). reflexivity.
Qed.

Lemma lower_ignoring_case e : ignoring_case e (JS.toLowerCase e).
Proof. induction e as [|x e IH]; simpl; [exact I|]. split; [apply lower_letter_of|exact IH]. Qed.

Lemma extensions_lower c ext : In ext (extensions c) -> JS.toLowerCase ext = ext.
Proof.
  destruct c; simpl; intros H;
    repeat (destruct H as [<- | H]; [reflexivity|]); contradiction.
Qed.

(** The test of the extensions does not look at the case of the letters. *)
Lemma has_ext_extension a c :
  has_ext a (extensions c) = true <->
  exists n, att_name a = Some n /\ has_extension n c.
Proof.
  unfold has_ext, has_extension. destruct (att_name a) as [n|].
  2:{ split; [discriminate|]. intros [n [H _]]. discriminate. }
  rewrite existsb_exists. split.
  - intros [ext [I E]]. apply endsWith_iff in E. destruct E as [p E].
    destruct (toLowerCase_split p ext n E) as [pre [e [-> [_ He]]]].
    exists (pre ++ e)%string. split; [reflexivity|].
    exists pre, e, ext. split; [reflexivity|]. split; [exact I|].
    rewrite <- He. apply lower_ignoring_case.
  - intros [n' [N [pre [e [ext [-> [I G]]]]]]]. injection N as ->.
    exists ext. split; [exact I|]. apply endsWith_iff.
    exists (JS.toLowerCase pre). rewrite toLowerCase_app.
    rewrite (ignoring_case_lower e ext G (extensions_lower c ext I)). reflexivity.
Qed.

(** C7. For a message of a human, every attachment is counted in the one
    category that lists the extension of its file name, whatever the case of
    the letters of the name, or in none; the attachments add up without a
    cap; the attachments a.png, b.gif, c.mp4, d.png give images + 2, gifs + 1,
    videos + 1, links + 0, and so do A.PNG, b.GiF, C.Mp4, d.JPEG. *)
Theorem processMessage_attachments :
  forall message st,
    bot (author message) = false ->
    let u := author_id (author message) in
    let s' := stats (processMessage message st) in
    (forall a c, kind a = Some c <-> has_ext a (extensions c) = true) /\
    (forall c, c = images \/ c = gifs \/ c = videos ->
       counter s' u c =
       (counter (stats st) u c
        + Z.of_nat (List.length
                      (filter (fun a => has_ext a (extensions c)) (attachments message))))%Z) /\
    (attachments message =
       [mkAttachment (Some "a.png"%string); mkAttachment (Some "b.gif"%string);
        mkAttachment (Some "c.mp4"%string); mkAttachment (Some "d.png"%string)] ->
     ~ has_link (content message) ->
     counter s' u images = (counter (stats st) u images + 2)%Z /\
     counter s' u gifs = (counter (stats st) u gifs + 1)%Z /\
     counter s' u videos = (counter (stats st) u videos + 1)%Z /\
     counter s' u links = (counter (stats st) u links + 0)%Z) /\
    (forall a c, kind a = Some c <->
                 exists n, att_name a = Some n /\ has_extension n c) /\
    (attachments message =
       [mkAttachment (Some "A.PNG"%string); mkAttachment (Some "b.GiF"%string);
        mkAttachment (Some "C.Mp4"%string); mkAttachment (Some "d.JPEG"%string)] ->
     ~ has_link (content message) ->
     counter s' u images = (counter (stats st) u images + 2)%Z /\
     counter s' u gifs = (counter (stats st) u gifs + 1)%Z /\
     counter s' u videos = (counter (stats st) u videos + 1)%Z /\
     counter s' u links = (counter (stats st) u links + 0)%Z).
Proof.
  intros message st B u s'. subst s'.
  rewrite processMessage_human by exact B. simpl stats.
  destruct (counted_spec message (stats st)) as [_ [Hc _]]. fold u in Hc.
  assert (E : forall l,
             attachments message = l -> ~ has_link (content message) ->
             forall c, counter (counted message (stats st)) u c =
                       (counter (stats st) u c
                        + match c with
                          | messages => 1
                          | links => 0
                          | _ => count_kind c l
                          end)%Z).
  { intros l A N c.
    assert (T : JS.linkRegex_test (content message) = false).
    { destruct (JS.linkRegex_test (content message)) eqn:T; [|reflexivity].
      apply linkRegex_test_iff in T. contradiction. }
    rewrite Hc, String.eqb_refl. unfold increments. rewrite T, A.
    destruct c; reflexivity. }
  split; [exact kind_extensions|]. split; [|split; [|split]].
  - intros c Hk. rewrite Hc, String.eqb_refl.
    replace (increments message c) with (count_kind c (attachments message))
      by (destruct Hk as [-> | [-> | ->]]; reflexivity).
    unfold count_kind. do 3 f_equal.
    apply filter_ext. intros a. apply is_kind_extensions.
  - intros A N. rewrite !(E _ A N). repeat split; reflexivity.
  - intros a c. rewrite kind_extensions. apply has_ext_extension.
  - intros A N. rewrite !(E _ A N). repeat split; reflexivity.
Qed.

Lemma processMessage_attachments_witness :
  (let u := author_id Sample.alice in
   let s' := stats (processMessage Sample.four_files Sample.old_state) in
   counter s' u images = 4%Z /\ counter s' u gifs = 1%Z /\
   counter s' u videos = 2%Z /\ counter s' u links = 0%Z) /\
  (let u := author_id Sample.alice in
   let s' := stats (processMessage Sample.capitals Sample.old_state) in
   counter s' u images = 4%Z /\ counter s' u gifs = 1%Z /\ counter s' u videos = 2%Z) /\
  kind (mkAttachment (Some "HOLIDAY.JPG"%string)) = Some images.
Proof.
  split; [|split].
  - destruct (processMessage_attachments Sample.four_files Sample.old_state eq_refl)
      as [_ [_ [F _]]].
    apply F; [reflexivity|].
    intros H. apply linkRegex_test_iff in H. vm_compute in H. discriminate H.
  - destruct (processMessage_attachments Sample.capitals Sample.old_state eq_refl)
      as [_ [C _]].
    split; [exact (C images (or_introl eq_refl))|].
    split; [exact (C gifs (or_intror (or_introl eq_refl)))|].
    exact (C videos (or_intror (or_intror eq_refl))).
  - destruct (processMessage_attachments Sample.capitals Sample.old_state eq_refl)
      as [_ [_ [_ [K _]]]].
    apply K. exists "HOLIDAY.JPG"%string. split; [reflexivity|].
    exists "HOLIDAY"%string, ".JPG"%string, ".jpg"%string.
    split; [reflexivity|]. split; [simpl; auto|].
    simpl. repeat split;
      first [left; reflexivity | right; vm_compute; repeat split; lia].
Defined.

(** *** The invariant of the store *)

Lemma update_complete u f s :
  (forall r, complete r -> complete (f r)) ->
  complete_store s -> complete_store (update u f s).
Proof.
  intros Hf H. induction H as [|[k r] s Hr Hs IH]; simpl; [constructor|].
  destruct (String.eqb u k); constructor; simpl in *; auto.
Qed.

Lemma incr_complete u c s : complete_store s -> complete_store (incr u c s).
Proof.
  apply update_complete. intros r C c'.
  destruct (Category_eq_dec c c') as [<-|N].
  - rewrite get_set_same. specialize (C c).
    destruct (get_key c r); [discriminate|congruence].
  - rewrite get_set_other by assumption. apply C.
Qed.

Lemma initUserStats_complete message s :
  complete_store s -> complete_store (initUserStats message s).
Proof.
  intros H. unfold initUserStats.
  destruct (lookup (author_id (author message)) s).
  - apply update_complete; [|exact H]. intros r _. apply complete_repair.
  - apply Forall_app. split; [exact H|]. constructor; [apply complete_new|constructor].
Qed.

(** A store whose records hold the five counters stays so under
    [processMessage]: the bot never writes a record without a counter. *)
Lemma processMessage_complete message st :
  complete_store (stats st) -> complete_store (stats (processMessage message st)).
Proof.
  intros H. destruct (bot (author message)) eqn:B.
  - unfold processMessage. rewrite B. exact H.
  - rewrite processMessage_human by exact B. simpl stats. unfold counted.
    assert (F : forall l s0, complete_store s0 ->
                  complete_store
                    (fold_left (count_attachment (author_id (author message))) l s0)).
    { induction l as [|a l IH]; intros s0 H0; [exact H0|]. simpl. apply IH.
      rewrite count_attachment_kind. destruct (kind a); [apply incr_complete|]; exact H0. }
    destruct (JS.linkRegex_test (content message));
      [apply incr_complete|]; apply F, incr_complete, initUserStats_complete, H.
Qed.

Lemma complete_holds_counter c s : complete_store s -> holds_counter c s.
Proof.
  intros H. eapply Forall_impl; [|exact H]. intros e C. apply C.
Qed.

(* ================================================================== *)
(** ** Back-fill *)

Lemma process_all_app l1 l2 st :
  process_all (l1 ++ l2) st = process_all l2 (process_all l1 st).
Proof. unfold process_all. apply fold_left_app. Qed.

Lemma processMessage_out message st : out (processMessage message st) = out st.
Proof. unfold processMessage. destruct (bot (author message)); reflexivity. Qed.

Lemma process_all_out l : forall st, out (process_all l st) = out st.
Proof.
  induction l as [|m l IH]; intros st; [reflexivity|].
  unfold process_all in *. simpl. rewrite IH. apply processMessage_out.
Qed.

Lemma processMessage_total message st :
  total messages (stats (processMessage message st)) =
  (total messages (stats st) + if bot (author message) then 0 else 1)%Z.
Proof.
  destruct (bot (author message)) eqn:B.
  - unfold processMessage. rewrite B. lia.
  - rewrite processMessage_human by exact B. simpl stats.
    destruct (counted_spec message (stats st)) as [_ [_ [_ Ht]]].
    rewrite Ht. reflexivity.
Qed.

Lemma process_all_total l : forall st,
  total messages (stats (process_all l st)) =
  (total messages (stats st) + Z.of_nat (List.length l) - bots l)%Z.
Proof.
  unfold bots. induction l as [|m l IH]; intros st; [simpl; lia|].
  unfold process_all in *. cbn [fold_left]. rewrite IH, processMessage_total.
  cbn [filter]. destruct (bot (author m)); cbn [List.length]; lia.
Qed.

Lemma process_all_emit l : forall e st,
  stats (process_all l (emit e st)) = stats (process_all l st).
Proof.
  assert (P : forall m st1 st2, stats st1 = stats st2 ->
                stats (processMessage m st1) = stats (processMessage m st2)).
  { intros m st1 st2 E. unfold processMessage.
    destruct (bot (author m)); [exact E|]. simpl. rewrite E. reflexivity. }
  assert (Q : forall l st1 st2, stats st1 = stats st2 ->
                stats (process_all l st1) = stats (process_all l st2)).
  { induction l0 as [|m l0 IH]; intros st1 st2 E; [exact E|].
    unfold process_all in *. simpl. apply IH, P, E. }
  intros e st. apply Q. reflexivity.
Qed.

Lemma increments_nonneg message c : (0 <= increments message c)%Z.
Proof.
  unfold increments, count_kind.
  destruct c; try lia; destruct (JS.linkRegex_test (content message)); lia.
Qed.

Lemma grows_refl s : grows s s.
Proof. intros u c. lia. Qed.

Lemma grows_trans s1 s2 s3 : grows s1 s2 -> grows s2 s3 -> grows s1 s3.
Proof. intros H1 H2 u c. specialize (H1 u c). specialize (H2 u c). lia. Qed.

Lemma processMessage_grows message st :
  grows (stats st) (stats (processMessage message st)).
Proof.
  destruct (bot (author message)) eqn:B.
  - unfold processMessage. rewrite B. apply grows_refl.
  - rewrite processMessage_human by exact B. simpl stats.
    destruct (counted_spec message (stats st)) as [_ [Hc _]].
    intros u c. rewrite Hc.
    pose proof (increments_nonneg message c).
    destruct (String.eqb u (author_id (author message))); lia.
Qed.

Lemma process_all_grows l : forall st, grows (stats st) (stats (process_all l st)).
Proof.
  induction l as [|m l IH]; intros st; [apply grows_refl|].
  unfold process_all in *. simpl.
  eapply grows_trans; [apply processMessage_grows|apply IH].
Qed.

Lemma backfill_loop_grows fuel channel : forall n lastMessageId fetchedCount st r,
  backfill_loop fuel channel n lastMessageId fetchedCount st = Some r ->
  grows (stats st) (stats (fst (fst r))).
Proof.
  induction fuel as [|fuel IH]; intros n l cnt st r H; [discriminate|].
  simpl in H. destruct (fetch channel n (next_options l)) as [page|error].
  - destruct (List.length page =? 0).
    + injection H as <-. apply grows_refl.
    + destruct (List.length page <? 100).
      * injection H as <-. simpl.
        pose proof (process_all_grows page (emit (Request (ch_name channel) (next_options l)) st)) as G.
        exact G.
      * apply IH in H. eapply grows_trans; [|exact H]. simpl.
        apply (process_all_grows page (emit (Request (ch_name channel) (next_options l)) st)).
  - injection H as <-. apply grows_refl.
Qed.

Lemma backfill_channels_grows fuel chs : forall st r,
  backfill_channels fuel chs st = Some r -> grows (stats st) (stats (fst r)).
Proof.
  induction chs as [|[channelId channel] chs IH]; intros st r H; simpl in H.
  - injection H as <-. apply grows_refl.
  - destruct (is_GuildText (ch_type channel)); [|apply IH, H].
    unfold backfill_channel in H.
    destruct (backfill_loop fuel channel 0 None 0 _) as [[[st' cnt] t]|] eqn:L;
      [|discriminate].
    apply backfill_loop_grows in L. simpl in L.
    destruct (backfill_channels fuel chs _) as [[st'' ts]|] eqn:R; [|discriminate].
    apply IH in R. injection H as <-. simpl in *.
    eapply grows_trans; [exact L|exact R].
Qed.

Lemma process_all_stats_ext l : forall st1 st2,
  stats st1 = stats st2 -> stats (process_all l st1) = stats (process_all l st2).
Proof.
  induction l as [|m l IH]; intros st1 st2 E; [exact E|].
  unfold process_all in *. simpl. apply IH.
  unfold processMessage. destruct (bot (author m)); [exact E|].
  simpl. rewrite E. reflexivity.
Qed.

(** Through full pages the loop goes on; this is where it stands after them. *)
Lemma backfill_loop_serves channel final : forall pages fuel n lastMessageId fetchedCount st,
  serves channel n lastMessageId pages final ->
  List.length pages < fuel ->
  backfill_loop fuel channel n lastMessageId fetchedCount st =
  let '(st', l', cnt') := after_pages (ch_name channel) lastMessageId fetchedCount pages st in
  backfill_loop (fuel - List.length pages) channel (n + List.length pages) l' cnt' st'.
Proof.
  induction pages as [|page pages IH]; intros fuel n l cnt st Hs F.
  - simpl. rewrite Nat.sub_0_r, Nat.add_0_r. reflexivity.
  - destruct Hs as [E [L Hs]]. destruct fuel as [|fuel]; [simpl in F; lia|].
    cbn [backfill_loop]. rewrite E, L. cbn [Nat.eqb Nat.ltb Nat.leb].
    change (100 =? 0) with false. change (100 <? 100) with false. cbv iota.
    rewrite IH by (simpl in F; auto with arith).
    cbn [after_pages List.length]. rewrite L.
    replace (S n + List.length pages) with (n + S (List.length pages)) by lia.
    reflexivity.
Qed.

Lemma after_pages_stats name : forall pages lastMessageId fetchedCount st,
  stats (fst (fst (after_pages name lastMessageId fetchedCount pages st))) =
  stats (process_all (List.concat pages) st).
Proof.
  induction pages as [|page pages IH]; intros l cnt st; [reflexivity|].
  cbn [after_pages List.concat]. rewrite IH, process_all_app.
  apply process_all_stats_ext. simpl. apply process_all_emit.
Qed.

Lemma after_pages_count name : forall pages lastMessageId fetchedCount st,
  Forall (fun page => List.length page = 100) pages ->
  snd (after_pages name lastMessageId fetchedCount pages st) =
  fetchedCount + 100 * List.length pages.
Proof.
  induction pages as [|page pages IH]; intros l cnt st F; simpl; [lia|].
  inversion F as [|? ? L F']. subst. rewrite IH by assumption. rewrite L. lia.
Qed.

Lemma after_pages_out name : forall pages lastMessageId fetchedCount st,
  exists evs,
    out (fst (fst (after_pages name lastMessageId fetchedCount pages st))) = out st ++ evs.
Proof.
  induction pages as [|page pages IH]; intros l cnt st.
  - exists []. simpl. rewrite app_nil_r. reflexivity.
  - cbn [after_pages].
    destruct (IH (last_id page) (cnt + List.length page)
                 (emit (Log_fetched (List.length page) (cnt + List.length page))
                       (process_all page (emit (Request name (next_options l)) st))))
      as [evs E].
    rewrite E. simpl. rewrite process_all_out. simpl.
    eexists. rewrite <- !app_assoc. reflexivity.
Qed.

Lemma serves_full channel final : forall pages n lastMessageId,
  serves channel n lastMessageId pages final ->
  Forall (fun page => List.length page = 100) pages.
Proof.
  induction pages as [|page pages IH]; intros n l Hs; constructor.
  - apply Hs.
  - destruct Hs as [_ [_ Hs]]. eapply IH, Hs.
Qed.

Lemma serves_final channel final : forall pages n lastMessageId fetchedCount st,
  serves channel n lastMessageId pages final ->
  fetch channel (n + List.length pages)
        (next_options (snd (fst (after_pages (ch_name channel) lastMessageId
                                             fetchedCount pages st))))
  = final.
Proof.
  induction pages as [|page pages IH]; intros n l cnt st Hs.
  - simpl. rewrite Nat.add_0_r. exact Hs.
  - destruct Hs as [_ [_ Hs]]. cbn [after_pages List.length].
    replace (n + S (List.length pages)) with (S n + List.length pages) by lia.
    apply IH, Hs.
Qed.

(** A loop whose pages end ends, in every state. *)
Lemma halts_backfill_loop channel : forall fuel n lastMessageId fetchedCount st,
  halts fuel channel n lastMessageId = true ->
  exists r, backfill_loop fuel channel n lastMessageId fetchedCount st = Some r.
Proof.
  induction fuel as [|fuel IH]; intros n l cnt st H; [discriminate|].
  simpl in *. destruct (fetch channel n (next_options l)) as [page|error]; [|eauto].
  destruct (List.length page =? 0); [eauto|].
  destruct (List.length page <? 100); [eauto|]. simpl in H. apply IH, H.
Qed.

Lemma backfill_channels_app fuel l1 : forall l2 st,
  backfill_channels fuel (l1 ++ l2) st =
  match backfill_channels fuel l1 st with
  | Some (st', ts1) =>
      match backfill_channels fuel l2 st' with
      | Some (st'', ts2) => Some (st'', ts1 ++ ts2)
      | None => None
      end
  | None => None
  end.
Proof.
  induction l1 as [|[channelId channel] l1 IH]; intros l2 st; simpl.
  - destruct (backfill_channels fuel l2 st) as [[? ?]|]; reflexivity.
  - destruct (is_GuildText (ch_type channel)); [|apply IH].
    destruct (backfill_channel fuel channelId channel st) as [[st' t]|]; [|reflexivity].
    rewrite IH. destruct (backfill_channels fuel l1 st') as [[st'' ts1]|]; [|reflexivity].
    destruct (backfill_channels fuel l2 st'') as [[? ?]|]; reflexivity.
Qed.

Lemma backfill_channels_halt fuel : forall chs st,
  Forall (fun e => is_GuildText (ch_type (snd e)) = true ->
                   halts fuel (snd e) 0 None = true) chs ->
  exists st' ts,
    backfill_channels fuel chs st = Some (st', ts) /\ map fst ts = text_channels chs.
Proof.
  induction chs as [|[channelId channel] chs IH]; intros st F.
  - exists st, []. split; reflexivity.
  - inversion F as [|? ? H F']. subst. simpl in H. unfold text_channels. simpl.
    destruct (is_GuildText (ch_type channel)) eqn:T.
    + unfold backfill_channel.
      destruct (halts_backfill_loop channel fuel 0 None 0
                  (emit (Log_fetching (ch_name channel) channelId) st) (H eq_refl))
        as [[[st1 cnt] t] E].
      rewrite E.
      destruct (IH (emit (Log_done (ch_name channel) cnt) st1) F') as [st' [ts [R M]]].
      rewrite R. exists st', ((channelId, t) :: ts). split; [reflexivity|].
      simpl. rewrite M. reflexivity.
    + apply IH, F'.
Qed.

(** C8. When a request for a page of one channel fails, the loop of that
    channel alone ends (Aborted, the error logged): the messages of the pages
    processed before keep their counts, every remaining text channel is gone
    through to its own end, and no counter goes down on the way. *)
Theorem fetch_error_aborts_one_channel :
  forall fuel guild pre channelId channel post pages error st st0 ts0,
    channels guild = pre ++ (channelId, channel) :: post ->
    backfill_channels fuel pre st = Some (st0, ts0) ->
    ch_type channel = GuildText ->
    serves channel 0 None pages (FetchError error) ->
    List.length pages < fuel ->
    Forall (fun e => is_GuildText (ch_type (snd e)) = true ->
                     halts fuel (snd e) 0 None = true) post ->
    exists st1 st2 ts evs,
      backfill_channel fuel channelId channel st0 = Some (st1, Aborted) /\
      stats st1 = stats (process_all (List.concat pages) st0) /\
      out st1 = out st0 ++ evs ++
                [Error_fetching (ch_name channel) error;
                 Log_done (ch_name channel) (100 * List.length pages)] /\
      backfill_channels fuel post st1 = Some (st2, ts) /\
      map fst ts = text_channels post /\
      grows (stats st1) (stats st2) /\
      fetchAllMessagesForGuild fuel (Some guild) st =
      Some (emit Log_finished st2, ts0 ++ (channelId, Aborted) :: ts).
Proof.
  intros fuel guild pre channelId channel post pages error st st0 ts0
         Hg Hpre Ht Hs Hlt Hpost.
  set (start := emit (Log_fetching (ch_name channel) channelId) st0).
  pose proof (backfill_loop_serves channel _ pages fuel 0 None 0 start Hs Hlt) as L.
  pose proof (serves_final channel _ pages 0 None 0 start Hs) as Fin.
  pose proof (after_pages_stats (ch_name channel) pages None 0 start) as St.
  pose proof (after_pages_count (ch_name channel) pages None 0 start
                (serves_full channel _ pages 0 None Hs)) as Cn.
  destruct (after_pages_out (ch_name channel) pages None 0 start) as [evs Ev].
  destruct (after_pages (ch_name channel) None 0 pages start) as [[st' l'] cnt'].
  simpl in Fin, St, Cn, Ev, L.
  destruct (fuel - List.length pages) as [|k] eqn:K; [lia|].
  cbn [backfill_loop] in L. rewrite Fin in L.
  set (st1 := emit (Log_done (ch_name channel) cnt')
                (emit (Error_fetching (ch_name channel) error)
                   (emit (Request (ch_name channel) (next_options l')) st'))).
  assert (B : backfill_channel fuel channelId channel st0 = Some (st1, Aborted)).
  { unfold backfill_channel. fold start. rewrite L. reflexivity. }
  destruct (backfill_channels_halt fuel post st1 Hpost) as [st2 [ts [R M]]].
  exists st1, st2, ts,
    (Log_fetching (ch_name channel) channelId :: evs
     ++ [Request (ch_name channel) (next_options l')]).
  split; [exact B|]. split; [|split; [|split; [exact R|split; [exact M|split]]]].
  - simpl. rewrite St. apply process_all_emit.
  - simpl. rewrite Ev. subst cnt'. simpl. rewrite <- !app_assoc. reflexivity.
  - apply (backfill_channels_grows fuel post st1 (st2, ts) R).
  - unfold fetchAllMessagesForGuild. rewrite Hg, backfill_channels_app, Hpre.
    cbn [backfill_channels]. rewrite Ht. cbn [is_GuildText]. rewrite B, R.
    reflexivity.
Qed.

(** *** A channel with a fixed history *)

Lemma last_In (A : Type) (l : list A) (d : A) : l <> [] -> In (last l d) l.
Proof.
  induction l as [|a l IH]; intros H; [contradiction|].
  destruct l as [|b l]; [left; reflexivity|].
  right. apply IH. discriminate.
Qed.

Lemma last_app (A : Type) (l1 l2 : list A) (d : A) :
  l2 <> [] -> last (l1 ++ l2) d = last l2 d.
Proof.
  intros H. induction l1 as [|a l1 IH]; [reflexivity|].
  simpl. destruct (l1 ++ l2) eqn:E; [|exact IH].
  apply app_eq_nil in E. destruct E. contradiction.
Qed.

(** Asking for what is older than the last message of a prefix of the
    history gives the rest of the history. *)
Lemma older_than_last page : forall rest,
  page <> [] ->
  NoDup (map msg_id (page ++ rest)) ->
  older_than (last (map msg_id page) ""%string) (page ++ rest) = rest.
Proof.
  induction page as [|m page IH]; intros rest Hne Hnd; [contradiction|].
  destruct page as [|m' page].
  - simpl. rewrite String.eqb_refl. reflexivity.
  - change (last (map msg_id (m :: m' :: page)) ""%string)
      with (last (map msg_id (m' :: page)) ""%string).
    change ((m :: m' :: page) ++ rest) with (m :: (m' :: page) ++ rest).
    cbn [older_than].
    change (map msg_id (m :: (m' :: page) ++ rest))
      with (msg_id m :: map msg_id ((m' :: page) ++ rest)) in Hnd.
    inversion Hnd as [|? ? Hin Hnd']. subst.
    destruct (String.eqb (msg_id m) (last (map msg_id (m' :: page)) ""%string)) eqn:E.
    + exfalso. apply String.eqb_eq in E.
      assert (I : In (last (map msg_id (m' :: page)) ""%string)
                     (map msg_id ((m' :: page) ++ rest))).
      { rewrite map_app. apply in_or_app. left. apply last_In. discriminate. }
      rewrite <- E in I. exact (Hin I).
    + apply IH; [discriminate|exact Hnd'].
Qed.

Lemma truthy_last_id page :
  page <> [] ->
  Forall (fun m => msg_id m <> ""%string) page ->
  next_options (last_id page) = mkOptions 100 (last_id page).
Proof.
  intros Hne F. unfold next_options, last_id, JS.truthy.
  assert (In (last (map msg_id page) ""%string) (map msg_id page))
    by (apply last_In; destruct page; [contradiction|discriminate]).
  apply in_map_iff in H. destruct H as [m [E I]].
  rewrite Forall_forall in F. specialize (F m I).
  rewrite <- E. apply String.eqb_neq in F. rewrite F. reflexivity.
Qed.

Lemma backfill_loop_short fuel channel n lastMessageId fetchedCount st page :
  fetch channel n (next_options lastMessageId) = Page page ->
  0 < List.length page < 100 ->
  backfill_loop (S fuel) channel n lastMessageId fetchedCount st =
  Some (emit (Log_fetched (List.length page) (fetchedCount + List.length page))
             (process_all page
                (emit (Request (ch_name channel) (next_options lastMessageId)) st)),
        fetchedCount + List.length page, Done).
Proof.
  intros E [L1 L2]. cbn [backfill_loop]. rewrite E.
  destruct (List.length page =? 0) eqn:Z; [apply Nat.eqb_eq in Z; lia|].
  destruct (List.length page <? 100) eqn:T; [reflexivity|].
  apply Nat.ltb_ge in T. lia.
Qed.

Lemma bots_app l1 l2 : bots (l1 ++ l2) = (bots l1 + bots l2)%Z.
Proof. unfold bots. rewrite filter_app, List.length_app. lia. Qed.

Lemma firstn_exact (A : Type) (l r : list A) n :
  List.length l = n -> firstn n (l ++ r) = l.
Proof.
  intros <-. rewrite firstn_app, Nat.sub_diag, firstn_all. simpl.
  apply app_nil_r.
Qed.

(** The three pages of a history of 250 messages. *)
Lemma history_250_pages channel history :
  fetch channel = history_fetch history ->
  List.length history = 250 ->
  NoDup (map msg_id history) ->
  Forall (fun m => msg_id m <> ""%string) history ->
  exists p1 p2 p3,
    history = p1 ++ p2 ++ p3 /\
    List.length p1 = 100 /\ List.length p2 = 100 /\ List.length p3 = 50 /\
    serves channel 0 None [p1; p2] (Page p3) /\
    next_options (last_id p1) = mkOptions 100 (last_id p1) /\
    next_options (last_id p2) = mkOptions 100 (last_id p2).
Proof.
  intros Hf Hl Hnd Hid.
  set (p1 := firstn 100 history). set (r1 := skipn 100 history).
  set (p2 := firstn 100 r1). set (p3 := skipn 100 r1).
  assert (E1 : history = p1 ++ r1) by (symmetry; apply firstn_skipn).
  assert (E2 : r1 = p2 ++ p3) by (symmetry; apply firstn_skipn).
  assert (L1 : List.length p1 = 100) by (unfold p1; rewrite length_firstn; lia).
  assert (Lr : List.length r1 = 150) by (unfold r1; rewrite length_skipn; lia).
  assert (L2 : List.length p2 = 100) by (unfold p2; rewrite length_firstn; lia).
  assert (L3 : List.length p3 = 50) by (unfold p3; rewrite length_skipn; lia).
  assert (N1 : p1 <> []) by (intros N; rewrite N in L1; discriminate).
  assert (N2 : p2 <> []) by (intros N; rewrite N in L2; discriminate).
  assert (E : history = p1 ++ p2 ++ p3) by (rewrite <- E2; exact E1).
  assert (F1 : Forall (fun m => msg_id m <> ""%string) p1).
  { rewrite E in Hid. apply Forall_app in Hid. apply Hid. }
  assert (F2 : Forall (fun m => msg_id m <> ""%string) p2).
  { rewrite E in Hid. apply Forall_app in Hid. destruct Hid as [_ Hid].
    apply Forall_app in Hid. apply Hid. }
  pose proof (truthy_last_id p1 N1 F1) as T1.
  pose proof (truthy_last_id p2 N2 F2) as T2.
  clearbody p1 r1 p2 p3. clear E1 E2 Lr r1. subst history.
  exists p1, p2, p3. repeat split; try assumption.
  - rewrite Hf. unfold history_fetch. simpl. f_equal.
    apply (firstn_exact _ p1 (p2 ++ p3) 100 L1).
  - rewrite Hf, T1. unfold history_fetch, last_id. cbn [limit before].
    rewrite older_than_last by assumption.
    f_equal. apply firstn_exact, L2.
  - cbn [serves]. rewrite Hf, T2. unfold history_fetch, last_id. cbn [limit before].
    replace (last (map msg_id p2) ""%string)
      with (last (map msg_id (p1 ++ p2)) ""%string).
    2:{ rewrite map_app. apply last_app. destruct p2; [contradiction|discriminate]. }
    rewrite app_assoc. rewrite older_than_last.
    + f_equal. apply firstn_all2. lia.
    + destruct p1; [contradiction|discriminate].
    + rewrite <- app_assoc. assumption.
Qed.

Lemma skipn_exact (A : Type) (l r : list A) n :
  List.length l = n -> skipn n (l ++ r) = r.
Proof.
  intros <-. rewrite skipn_app, Nat.sub_diag, skipn_all. reflexivity.
Qed.

(** C2. On a channel whose history has exactly 250 messages, the loop makes
    exactly three requests, receives pages of 100, 100 and 50 messages and
    ends by the [break] of a short page (Done); every message of the history
    has been processed once, and the sum of the [messages] counters has grown
    by 250 minus the number of messages written by bots. *)
Theorem backfill_250_messages :
  forall fuel channelId channel history st,
    fetch channel = history_fetch history ->
    List.length history = 250 ->
    NoDup (map msg_id history) ->
    Forall (fun m => msg_id m <> ""%string) history ->
    3 <= fuel ->
    exists st',
      backfill_channel fuel channelId channel st = Some (st', Done) /\
      out st' = out st ++
        [Log_fetching (ch_name channel) channelId;
         Request (ch_name channel) (mkOptions 100 None);
         Log_fetched 100 100;
         Request (ch_name channel) (mkOptions 100 (last_id (firstn 100 history)));
         Log_fetched 100 200;
         Request (ch_name channel)
                 (mkOptions 100 (last_id (firstn 100 (skipn 100 history))));
         Log_fetched 50 250;
         Log_done (ch_name channel) 250] /\
      stats st' = stats (process_all history st) /\
      total messages (stats st') =
      (total messages (stats st) + 250 - bots history)%Z.
Proof.
  intros fuel channelId channel history st Hf Hl Hnd Hid Hfuel.
  destruct (history_250_pages channel history Hf Hl Hnd Hid)
    as [p1 [p2 [p3 [E [L1 [L2 [L3 [Hs [T1 T2]]]]]]]]].
  set (start := emit (Log_fetching (ch_name channel) channelId) st).
  assert (F2 : List.length [p1; p2] < fuel) by (simpl; lia).
  pose proof (backfill_loop_serves channel _ [p1; p2] fuel 0 None 0 start Hs F2) as L.
  cbn [after_pages List.length] in L.
  destruct Hs as [_ [_ [_ [_ Hfin]]]]. cbn [serves] in Hfin.
  destruct (fuel - 2) as [|k] eqn:K; [lia|].
  rewrite (backfill_loop_short k channel (0 + 2) _ _ _ p3 Hfin) in L by lia.
  unfold backfill_channel. fold start. rewrite L.
  eexists. split; [reflexivity|].
  assert (H1 : firstn 100 history = p1)
    by (rewrite E; exact (firstn_exact _ p1 (p2 ++ p3) 100 L1)).
  assert (H2 : firstn 100 (skipn 100 history) = p2).
  { rewrite E, (skipn_exact _ p1 (p2 ++ p3) 100 L1).
    exact (firstn_exact _ p2 p3 100 L2). }
  split; [|split].
  - rewrite H1, H2. unfold start.
    repeat (cbn [out emit] || rewrite process_all_out).
    rewrite T1, T2, L1, L2, L3. simpl. rewrite <- !app_assoc. reflexivity.
  - simpl stats. rewrite E, !process_all_app.
    repeat (rewrite ?process_all_emit;
            first [reflexivity | apply process_all_stats_ext; simpl stats]).
  - simpl stats.
    rewrite !process_all_total. simpl stats.
    rewrite !process_all_total. simpl stats.
    rewrite !process_all_total. simpl stats.
    rewrite E, !bots_app, L1, L2, L3. lia.
Qed.

Lemma NoDup_by_nodup (l : list string) : nodup string_dec l = l -> NoDup l.
Proof. intros <-. apply NoDup_nodup. Qed.

Lemma nonempty_ids_by_forallb (l : list Message) :
  forallb (fun m => negb (String.eqb (msg_id m) "")) l = true ->
  Forall (fun m => msg_id m <> ""%string) l.
Proof.
  intros H. apply Forall_forall. intros m I.
  rewrite forallb_forall in H. specialize (H m I).
  apply negb_true_iff, String.eqb_neq in H. exact H.
Qed.

Lemma backfill_250_messages_witness :
  exists st',
    backfill_channel 3 "900" Sample.general Sample.old_state = Some (st', Done) /\
    out st' = out Sample.old_state ++
      [Log_fetching "general" "900";
       Request "general" (mkOptions 100 None);
       Log_fetched 100 100;
       Request "general" (mkOptions 100 (last_id (firstn 100 Sample.history250)));
       Log_fetched 100 200;
       Request "general"
               (mkOptions 100 (last_id (firstn 100 (skipn 100 Sample.history250))));
       Log_fetched 50 250;
       Log_done "general" 250] /\
    stats st' = stats (process_all Sample.history250 Sample.old_state) /\
    total messages (stats st') =
    (total messages (stats Sample.old_state) + 250 - bots Sample.history250)%Z.
Proof.
  apply (backfill_250_messages 3 "900" Sample.general Sample.history250 Sample.old_state).
  - reflexivity.
  - vm_compute. reflexivity.
  - apply NoDup_by_nodup. vm_compute. reflexivity.
  - apply nonempty_ids_by_forallb. vm_compute. reflexivity.
  - lia.
Defined.

Lemma fetch_error_aborts_one_channel_witness :
  exists st1 st2 ts evs,
    backfill_channel 3 "902" Sample.flaky Sample.old_state = Some (st1, Aborted) /\
    stats st1 = stats (process_all (List.concat [Sample.page100]) Sample.old_state) /\
    out st1 = out Sample.old_state ++ evs ++
              [Error_fetching "flaky" "503"; Log_done "flaky" (100 * 1)] /\
    backfill_channels 3 [("903"%string, Sample.random)] st1 = Some (st2, ts) /\
    map fst ts = text_channels [("903"%string, Sample.random)] /\
    grows (stats st1) (stats st2) /\
    fetchAllMessagesForGuild 3 (Some Sample.guild3) Sample.old_state =
    Some (emit Log_finished st2, [] ++ ("902"%string, Aborted) :: ts).
Proof.
  apply (fetch_error_aborts_one_channel 3 Sample.guild3
           [("901"%string, Sample.lounge)] "902" Sample.flaky
           [("903"%string, Sample.random)] [Sample.page100] "503"
           Sample.old_state Sample.old_state []).
  - reflexivity.
  - reflexivity.
  - reflexivity.
  - split; [reflexivity|]. split; [vm_compute; reflexivity|reflexivity].
  - simpl. lia.
  - constructor; [|constructor]. intros _. vm_compute. reflexivity.
Defined.

(* ================================================================== *)
(** ** The leaderboard *)

Section Sorting.

Variable cmp : Entry -> Entry -> Z.

Lemma run_tail_app d : forall l p,
  l = fst (run_tail cmp d p l) ++ snd (run_tail cmp d p l).
Proof.
  induction l as [|x l IH]; intros p; [reflexivity|].
  cbn [run_tail].
  destruct (if d then (0 <=? cmp x p)%Z else (cmp x p <? 0)%Z); [reflexivity|].
  specialize (IH x). destruct (run_tail cmp d x l) as [run rest].
  simpl in *. f_equal. exact IH.
Qed.

Lemma CountAndMakeRun_perm a :
  Permutation (fst (CountAndMakeRun cmp a) ++ snd (CountAndMakeRun cmp a)) a.
Proof.
  destruct a as [|x0 [|x1 l]]; [apply Permutation_refl..|].
  unfold CountAndMakeRun.
  pose proof (run_tail_app (cmp x1 x0 <? 0)%Z l x1) as E.
  destruct (run_tail cmp (cmp x1 x0 <? 0)%Z x1 l) as [run rest].
  simpl fst in *. simpl snd in *. subst l.
  change (x0 :: x1 :: run ++ rest) with ((x0 :: x1 :: run) ++ rest).
  apply Permutation_app_tail.
  destruct (cmp x1 x0 <? 0)%Z; [apply Permutation_sym, Permutation_rev|].
  apply Permutation_refl.
Qed.

Lemma binary_insert_perm a x : Permutation (binary_insert cmp a x) (a ++ [x]).
Proof.
  unfold binary_insert.
  set (p := insertion_point _ _ _ _ _ _).
  rewrite <- (firstn_skipn p a) at 3. rewrite <- app_assoc.
  apply Permutation_app_head.
  apply Permutation_cons_append.
Qed.

Lemma fold_binary_insert_perm rest : forall run,
  Permutation (fold_left (binary_insert cmp) rest run) (run ++ rest).
Proof.
  induction rest as [|x rest IH]; intros run; simpl.
  - rewrite app_nil_r. apply Permutation_refl.
  - eapply perm_trans; [apply IH|].
    change (x :: rest) with ([x] ++ rest). rewrite app_assoc.
    apply Permutation_app_tail, binary_insert_perm.
Qed.

Lemma sort_perm l : Permutation (sort cmp l) l.
Proof.
  unfold sort. pose proof (CountAndMakeRun_perm l) as P.
  destruct (CountAndMakeRun cmp l) as [run rest]. simpl in P.
  eapply perm_trans; [apply fold_binary_insert_perm|exact P].
Qed.

Lemma sort_In l e : In e (sort cmp l) <-> In e l.
Proof.
  split; apply Permutation_in; [|apply Permutation_sym]; apply sort_perm.
Qed.

Lemma sort_length l : List.length (sort cmp l) = List.length l.
Proof. apply Permutation_length, sort_perm. Qed.

End Sorting.

Section Descending.

Variable c : Category.

Let has (e : Entry) : Prop := get_key c (val e) <> None.

Lemma compare_desc_count a b :
  has a -> has b -> compare_desc c a b = (count c b - count c a)%Z.
Proof.
  unfold has, compare_desc, count. intros Ha Hb.
  destruct (get_key c (val a)), (get_key c (val b)); try congruence. reflexivity.
Qed.

(** [a] has to stand after [b]: its count is strictly smaller. *)
Let below (b a : Entry) : Prop := (count c b < count c a)%Z.

Lemma sorted_app_cons (R : Entry -> Entry -> Prop) x : forall l1 l2,
  StronglySorted R (l1 ++ l2) ->
  Forall (fun e => R e x) l1 -> Forall (R x) l2 ->
  StronglySorted R (l1 ++ x :: l2).
Proof.
  induction l1 as [|y l1 IH]; intros l2 S F1 F2; simpl in *.
  - constructor; assumption.
  - apply StronglySorted_inv in S. destruct S as [S Fy].
    inversion F1 as [|? ? Ry F1']. subst.
    constructor; [apply IH; assumption|].
    apply Forall_app in Fy. destruct Fy as [Fa Fb].
    apply Forall_app. split; [exact Fa|]. constructor; assumption.
Qed.

Lemma sorted_impl (R R' : Entry -> Entry -> Prop) l :
  (forall a b, R a b -> R' a b) -> StronglySorted R l -> StronglySorted R' l.
Proof.
  intros I. induction 1 as [|x l S IH F]; constructor; [exact IH|].
  eapply Forall_impl; [|exact F]. apply I.
Qed.

Lemma sorted_rev (R : Entry -> Entry -> Prop) l :
  StronglySorted R l -> StronglySorted (fun a b => R b a) (rev l).
Proof.
  induction 1 as [|x l S IH F]; simpl; [constructor|].
  rewrite <- (app_nil_r (rev l)) in IH.
  apply (sorted_app_cons (fun a b => R b a) x (rev l) []) in IH.
  - exact IH.
  - apply Forall_rev. exact F.
  - constructor.
Qed.

(** An ascending run of the comparison is a stretch of the array whose
    counts do not increase. *)
Lemma run_tail_ascending : forall l p,
  has p -> Forall has l ->
  StronglySorted (not_below c) (p :: fst (run_tail (compare_desc c) false p l)).
Proof.
  induction l as [|x l IH]; intros p Hp Hl; cbn [run_tail].
  - repeat constructor.
  - inversion Hl as [|? ? Hx Hl']. subst.
    rewrite (compare_desc_count x p Hx Hp).
    destruct (count c p - count c x <? 0)%Z eqn:E; [repeat constructor|].
    apply Z.ltb_ge in E. specialize (IH x Hx Hl').
    destruct (run_tail (compare_desc c) false x l) as [run rest]. simpl in *.
    constructor; [exact IH|].
    constructor; [unfold not_below; lia|].
    apply StronglySorted_inv in IH. destruct IH as [_ F].
    eapply Forall_impl; [|exact F]. unfold not_below. intros z Hz. lia.
Qed.

(** A descending run is a stretch whose counts increase strictly. *)
Lemma run_tail_descending : forall l p,
  has p -> Forall has l ->
  StronglySorted below (p :: fst (run_tail (compare_desc c) true p l)).
Proof.
  induction l as [|x l IH]; intros p Hp Hl; cbn [run_tail].
  - repeat constructor.
  - inversion Hl as [|? ? Hx Hl']. subst.
    rewrite (compare_desc_count x p Hx Hp).
    destruct (0 <=? count c p - count c x)%Z eqn:E; [repeat constructor|].
    apply Z.leb_gt in E. specialize (IH x Hx Hl').
    destruct (run_tail (compare_desc c) true x l) as [run rest]. simpl in *.
    constructor; [exact IH|].
    constructor; [unfold below; lia|].
    apply StronglySorted_inv in IH. destruct IH as [_ F].
    eapply Forall_impl; [|exact F]. unfold below. intros z Hz. lia.
Qed.

Lemma with_count_rev v l :
  StronglySorted below l -> with_count c v (rev l) = with_count c v l.
Proof.
  unfold with_count. induction 1 as [|x l S IH F]; [reflexivity|].
  simpl. rewrite filter_app, IH. simpl.
  destruct (count c x =? v)%Z eqn:E; [|apply app_nil_r].
  apply Z.eqb_eq in E.
  assert (N : filter (fun e => (count c e =? v)%Z) l = []).
  { clear - F E. induction F as [|y l Hy F IH]; [reflexivity|].
    simpl. rewrite IH. unfold below in Hy.
    destruct (count c y =? v)%Z eqn:Ey; [|reflexivity].
    apply Z.eqb_eq in Ey. lia. }
  rewrite N. reflexivity.
Qed.

(** The run found at the head of a list of entries that hold the counter. *)
Lemma CountAndMakeRun_sorted a :
  Forall has a ->
  exists head,
    a = head ++ snd (CountAndMakeRun (compare_desc c) a) /\
    StronglySorted (not_below c) (fst (CountAndMakeRun (compare_desc c) a)) /\
    Permutation (fst (CountAndMakeRun (compare_desc c) a)) head /\
    forall v, with_count c v (fst (CountAndMakeRun (compare_desc c) a)) =
              with_count c v head.
Proof.
  intros H. destruct a as [|x0 [|x1 l]].
  - exists []. repeat split; constructor.
  - exists [x0]. repeat split; repeat constructor.
  - inversion H as [|? ? Hx0 H']. inversion H' as [|? ? Hx1 Hl]. subst.
    unfold CountAndMakeRun.
    pose proof (run_tail_app (compare_desc c) (compare_desc c x1 x0 <? 0)%Z l x1) as E.
    pose proof (run_tail_ascending l x1 Hx1 Hl) as A.
    pose proof (run_tail_descending l x1 Hx1 Hl) as D.
    rewrite (compare_desc_count x1 x0 Hx1 Hx0) in *.
    destruct (count c x0 - count c x1 <? 0)%Z eqn:O.
    + apply Z.ltb_lt in O.
      destruct (run_tail (compare_desc c) true x1 l) as [run rest].
      simpl fst in *. simpl snd in *.
      assert (S0 : StronglySorted below (x0 :: x1 :: run)).
      { constructor; [exact D|]. constructor; [unfold below; lia|].
        apply StronglySorted_inv in D. destruct D as [_ F].
        eapply Forall_impl; [|exact F]. unfold below. intros z Hz. lia. }
      exists (x0 :: x1 :: run). split; [simpl; rewrite E at 1; reflexivity|].
      split; [|split; [apply Permutation_sym, Permutation_rev|]].
      * apply sorted_rev in S0.
        eapply sorted_impl; [|exact S0].
        unfold below, not_below. intros; lia.
      * intros v. exact (with_count_rev v (x0 :: x1 :: run) S0).
    + apply Z.ltb_ge in O.
      destruct (run_tail (compare_desc c) false x1 l) as [run rest].
      simpl fst in *. simpl snd in *.
      exists (x0 :: x1 :: run). split; [simpl; rewrite E at 1; reflexivity|].
      split; [|split; [apply Permutation_refl|reflexivity]].
      constructor; [exact A|]. constructor; [unfold not_below; lia|].
      apply StronglySorted_inv in A. destruct A as [_ F].
      eapply Forall_impl; [|exact F]. unfold not_below. intros z Hz. lia.
Qed.

Lemma sorted_nth : forall a mid e,
  StronglySorted (not_below c) a ->
  nth_error a mid = Some e ->
  Forall (fun e' => (count c e <= count c e')%Z) (firstn (mid + 1) a) /\
  Forall (fun e' => (count c e' <= count c e)%Z) (skipn mid a).
Proof.
  induction a as [|y a IH]; intros mid e Hs N; [destruct mid; discriminate|].
  apply StronglySorted_inv in Hs. destruct Hs as [Hs F].
  destruct mid as [|m]; simpl in N.
  - injection N as <-. split.
    + constructor; [lia|constructor].
    + constructor; [lia|exact F].
  - destruct (IH m e Hs N) as [A B]. split; [|exact B].
    change (firstn (Datatypes.S m + 1) (y :: a)) with (y :: firstn (m + 1) a).
    constructor; [|exact A].
    apply nth_error_In in N. rewrite Forall_forall in F. apply (F e N).
Qed.

(** In a sorted part the binary search finds the place after the entries
    whose count is at least that of the pivot. *)
Lemma insertion_point_spec a x :
  StronglySorted (not_below c) a -> has x -> Forall has a ->
  forall fuel left right,
    left <= right <= List.length a ->
    right - left <= fuel ->
    Forall (fun e => (count c x <= count c e)%Z) (firstn left a) ->
    Forall (fun e => (count c e < count c x)%Z) (skipn right a) ->
    let p := insertion_point fuel (compare_desc c) x a left right in
    Forall (fun e => (count c x <= count c e)%Z) (firstn p a) /\
    Forall (fun e => (count c e < count c x)%Z) (skipn p a).
Proof.
  intros Hs Hx Ha. induction fuel as [|fuel IH]; intros left right B F L R;
    cbn [insertion_point]; cbv zeta.
  - replace left with right at 2 by lia. auto.
  - destruct (left <? right) eqn:T.
    2:{ apply Nat.ltb_ge in T. replace left with right at 2 by lia. auto. }
    apply Nat.ltb_lt in T.
    pose proof (Nat.div_mod_eq (right - left) 2) as Dm.
    pose proof (Nat.mod_upper_bound (right - left) 2 ltac:(discriminate)) as Mu.
    set (h := (right - left) / 2) in *.
    destruct (nth_error a (left + h)) as [e|] eqn:N.
    2:{ apply nth_error_None in N. lia. }
    assert (He : has e).
    { rewrite Forall_forall in Ha. apply Ha. eapply nth_error_In, N. }
    destruct (sorted_nth a (left + h) e Hs N) as [A1 A2].
    rewrite (compare_desc_count x e Hx He).
    destruct (count c e - count c x <? 0)%Z eqn:O.
    + apply Z.ltb_lt in O. apply IH; [lia|lia|exact L|].
      eapply Forall_impl; [|exact A2]. simpl. intros z Hz. lia.
    + apply Z.ltb_ge in O. apply IH; [lia|lia| |exact R].
      eapply Forall_impl; [|exact A1]. simpl. intros z Hz. lia.
Qed.

Lemma binary_insert_place a x :
  StronglySorted (not_below c) a -> has x -> Forall has a ->
  exists p,
    binary_insert (compare_desc c) a x = firstn p a ++ x :: skipn p a /\
    Forall (fun e => (count c x <= count c e)%Z) (firstn p a) /\
    Forall (fun e => (count c e < count c x)%Z) (skipn p a).
Proof.
  intros S Hx Ha. eexists. split; [reflexivity|].
  apply (insertion_point_spec a x S Hx Ha); [lia|lia|constructor|].
  rewrite skipn_all. constructor.
Qed.

Lemma binary_insert_sorted a x :
  StronglySorted (not_below c) a -> has x -> Forall has a ->
  StronglySorted (not_below c) (binary_insert (compare_desc c) a x).
Proof.
  intros S Hx Ha. destruct (binary_insert_place a x S Hx Ha) as [p [E [F1 F2]]].
  rewrite E. apply sorted_app_cons.
  - rewrite firstn_skipn. exact S.
  - exact F1.
  - eapply Forall_impl; [|exact F2]. unfold not_below. intros z Hz. lia.
Qed.

Lemma binary_insert_with_count v a x :
  StronglySorted (not_below c) a -> has x -> Forall has a ->
  with_count c v (binary_insert (compare_desc c) a x) = with_count c v (a ++ [x]).
Proof.
  intros S Hx Ha. destruct (binary_insert_place a x S Hx Ha) as [p [E [_ F2]]].
  rewrite E. rewrite <- (firstn_skipn p a) at 3.
  unfold with_count. rewrite !filter_app, <- app_assoc. f_equal. simpl.
  destruct (count c x =? v)%Z eqn:Ex; [|rewrite app_nil_r; reflexivity].
  apply Z.eqb_eq in Ex.
  assert (N : forall l, Forall (fun e => (count c e < count c x)%Z) l ->
                        filter (fun e => (count c e =? v)%Z) l = []).
  { induction 1 as [|y l Hy Fl IH]; [reflexivity|].
    simpl. rewrite IH. destruct (count c y =? v)%Z eqn:Ey; [|reflexivity].
    apply Z.eqb_eq in Ey. lia. }
  rewrite (N _ F2). reflexivity.
Qed.

Lemma fold_binary_insert_sorted rest : forall run,
  StronglySorted (not_below c) run -> Forall has run -> Forall has rest ->
  StronglySorted (not_below c) (fold_left (binary_insert (compare_desc c)) rest run) /\
  forall v, with_count c v (fold_left (binary_insert (compare_desc c)) rest run) =
            with_count c v (run ++ rest).
Proof.
  induction rest as [|x rest IH]; intros run S Hr Hl; simpl.
  - rewrite app_nil_r. auto.
  - inversion Hl as [|? ? Hx Hl']. subst.
    destruct (IH (binary_insert (compare_desc c) run x)) as [S' W].
    + apply binary_insert_sorted; assumption.
    + eapply Permutation_Forall; [apply Permutation_sym, binary_insert_perm|].
      apply Forall_app. split; [exact Hr|repeat constructor; exact Hx].
    + exact Hl'.
    + split; [exact S'|]. intros v. rewrite W. unfold with_count.
      rewrite filter_app. fold (with_count c v (binary_insert (compare_desc c) run x)).
      rewrite binary_insert_with_count by assumption.
      unfold with_count. rewrite <- filter_app, <- app_assoc. reflexivity.
Qed.

Lemma sort_sorted_stable l :
  Forall has l ->
  StronglySorted (not_below c) (sort (compare_desc c) l) /\
  forall v, with_count c v (sort (compare_desc c) l) = with_count c v l.
Proof.
  intros H. unfold sort.
  destruct (CountAndMakeRun_sorted l H) as [head [E [S [P W]]]].
  destruct (CountAndMakeRun (compare_desc c) l) as [run rest]. simpl in *.
  assert (Hh : Forall has head /\ Forall has rest)
    by (rewrite E in H; apply Forall_app in H; exact H).
  destruct Hh as [Hh Hr].
  assert (Hrun : Forall has run)
    by (eapply Permutation_Forall; [apply Permutation_sym, P|exact Hh]).
  destruct (fold_binary_insert_sorted rest run S Hrun Hr) as [S' W'].
  split; [exact S'|]. intros v. rewrite W'. unfold with_count in *.
  subst l. rewrite !filter_app, W. reflexivity.
Qed.

Lemma sort_sorted l :
  Forall has l -> StronglySorted (not_below c) (sort (compare_desc c) l).
Proof. intros H. apply sort_sorted_stable, H. Qed.

(** Entries of equal count leave the sort in the order they came in. *)
Lemma sort_stable v l :
  Forall has l -> with_count c v (sort (compare_desc c) l) = with_count c v l.
Proof. intros H. apply sort_sorted_stable, H. Qed.

Lemma Object_entries_has s : forall heap,
  holds_counter c s -> Forall has (Object_entries heap s).
Proof.
  induction s as [|[k r] s IH]; intros heap H; simpl; [constructor|].
  inversion H as [|? ? Hr Hs]. subst. constructor; [exact Hr|apply IH, Hs].
Qed.

End Descending.


Lemma Object_entries_ref s : forall heap e,
  In e (Object_entries heap s) -> heap <= ref e < heap + List.length s.
Proof.
  induction s as [|[k r] s IH]; intros heap e H; simpl in *; [contradiction|].
  destruct H as [<- | H]; [simpl; lia|]. apply IH in H. lia.
Qed.

(** C9, as the code has it. The sort reads the records as they are stored,
    and a record of an older snapshot that [initUserStats] has not repaired
    yet has no counter: against it every comparison is NaN, read as 0.  For
    the store of alice (3), bob (no [messages]) and carol (5) the array is
    one ascending run for the sort and stays as it is, so that carol (5)
    ranks after alice (3): the leaderboard is not in descending order.  With
    bob and carol alone all comparisons are 0 and any stable sort has to keep
    bob, shown with the count [undefined], before carol (5). *)
Theorem leaderboard_legacy_store_misordered :
  let entries := Object_entries 0 Sample.legacy_store in
  let lb := leaderboard messages entries in
  map (fun e => (key e, get_key messages (val e))) lb =
    [(author_id Sample.alice, Some 3%Z); (author_id Sample.bob, None);
     (author_id Sample.carol, Some 5%Z)] /\
  ~ StronglySorted (not_below messages) lb /\
  (forall a b, In a (tl entries) -> In b (tl entries) -> compare_desc messages a b = 0%Z) /\
  map key (leaderboard messages (tl entries)) =
    [author_id Sample.bob; author_id Sample.carol] /\
  ~ StronglySorted (not_below messages) (leaderboard messages (tl entries)) /\
  fst (fst (getTopTenUsers lb messages Sample.guild1 3)) =
  ("0. **Alice** - `3`" ++ newline ++ "0. **bob** - `undefined`" ++ newline
   ++ "0. **carol** - `5`" ++ newline)%string.
Proof.
  split; [reflexivity|].
  split; [|split; [|split; [reflexivity|split; [|vm_compute; reflexivity]]]].
  - intros H. apply StronglySorted_inv in H. destruct H as [_ H].
    apply Forall_inv_tail, Forall_inv in H. vm_compute in H. apply H. reflexivity.
  - intros a b [<- | [<- | []]] [<- | [<- | []]]; reflexivity.
  - intros H. apply StronglySorted_inv in H. destruct H as [_ H].
    apply Forall_inv in H. vm_compute in H. apply H. reflexivity.
Qed.

(** X17. On a store whose records all hold the counter of the category, the
    leaderboard is the list of the entries sorted in descending order of that
    counter, entries of equal count staying in the order of the store; with
    A (5), B (5), C (3) in that order the top two are A then B, and C comes
    last. *)
Theorem leaderboard_stable_descending :
  forall c s,
    holds_counter c s ->
    let entries := Object_entries 0 s in
    let lb := leaderboard c entries in
    Permutation lb entries /\
    StronglySorted (not_below c) lb /\
    (forall v, with_count c v lb = with_count c v entries) /\
    (forall idA idB idC rA rB rC,
       s = [(idA, rA); (idB, rB); (idC, rC)] ->
       get_key c rA = Some 5%Z -> get_key c rB = Some 5%Z -> get_key c rC = Some 3%Z ->
       map key (firstn 2 lb) = [idA; idB] /\ map key lb = [idA; idB; idC]).
Proof.
  intros c s H entries lb. subst lb entries. unfold leaderboard.
  pose proof (Object_entries_has c s 0 H) as F.
  split; [apply sort_perm|]. split; [apply sort_sorted, F|].
  split; [intros v; apply sort_stable, F|].
  intros idA idB idC rA rB rC -> HA HB HC.
  unfold sort, CountAndMakeRun. cbn [Object_entries run_tail].
  unfold compare_desc. cbn [val]. rewrite HA, HB, HC. simpl. split; reflexivity.
Qed.

Lemma leaderboard_stable_descending_witness :
  let entries := Object_entries 0 Sample.abc_store in
  let lb := leaderboard messages entries in
  Permutation lb entries /\
  StronglySorted (not_below messages) lb /\
  (forall v, with_count messages v lb = with_count messages v entries) /\
  map key (firstn 2 lb) = [author_id Sample.alice; author_id Sample.bob] /\
  map key lb = [author_id Sample.alice; author_id Sample.bob; author_id Sample.carol].
Proof.
  assert (H : holds_counter messages Sample.abc_store)
    by (repeat constructor; discriminate).
  destruct (leaderboard_stable_descending messages Sample.abc_store H)
    as [P [S [T E]]].
  split; [exact P|]. split; [exact S|]. split; [exact T|].
  apply (E _ _ _ _ _ _ eq_refl); reflexivity.
Defined.

(** *** Rendering *)

Lemma append_assoc (a b c : string) : ((a ++ b) ++ c = a ++ b ++ c)%string.
Proof. induction a as [|x a IH]; simpl; [reflexivity|rewrite IH; reflexivity]. Qed.

Lemma append_nil_r (a : string) : (a ++ "" = a)%string.
Proof. induction a as [|x a IH]; simpl; [reflexivity|rewrite IH; reflexivity]. Qed.

Lemma firstn_In (A : Type) n (l : list A) x : In x (firstn n l) -> In x l.
Proof.
  intros H. rewrite <- (firstn_skipn n l). apply in_or_app. left. exact H.
Qed.

(** An array that was just created is found in no list of older arrays. *)
Lemma indexOf_from_fresh x : forall l i,
  (forall e, In e l -> ref e <> ref x) -> indexOf_from i l x = (-1)%Z.
Proof.
  induction l as [|y l IH]; intros i H; [reflexivity|].
  simpl. destruct (ref y =? ref x) eqn:E.
  - apply Nat.eqb_eq in E. exfalso. apply (H y); [left; reflexivity|exact E].
  - apply IH. intros e I. apply H. right. exact I.
Qed.

Lemma render_labels topTen category guild : forall todo heap text,
  (forall e, In e topTen -> ref e < heap) ->
  fst (fst (render topTen todo category guild heap text)) =
  (text ++ lines_labelled 0 todo category guild)%string.
Proof.
  induction todo as [|e todo IH]; intros heap text H.
  - simpl. rewrite append_nil_r. reflexivity.
  - cbn [render lines_labelled].
    destruct (resolve_name guild (key e) (val e)) as [displayName log].
    unfold indexOf. rewrite indexOf_from_fresh.
    2:{ intros e' I. apply H in I. simpl. lia. }
    specialize (IH (S heap) (text ++ line (-1 + 1) displayName (get_key category (val e)))%string).
    destruct (render topTen todo category guild (S heap) _) as [[text' log'] heap'].
    simpl in *. rewrite IH by (intros e' I; apply H in I; lia).
    apply append_assoc.
Qed.

Lemma getTopTenUsers_labels lb category guild heap :
  (forall e, In e lb -> ref e < heap) ->
  fst (fst (getTopTenUsers lb category guild heap)) =
  match lb with
  | [] => "No data"%string
  | _ => lines_labelled 0 (firstn 10 lb) category guild
  end.
Proof.
  intros H. unfold getTopTenUsers.
  pose proof (render_labels (firstn 10 lb) category guild (firstn 10 lb) heap ""%string) as R.
  destruct (render _ _ category guild heap _) as [[text log] heap'].
  simpl in *. rewrite R by (intros e I; apply H, (firstn_In _ 10), I).
  destruct lb as [|e lb]; reflexivity.
Qed.

(** C1, as the code has it. The label of a line is
    [topTen.indexOf([userId, userStats]) + 1], and the array searched for is a
    new one, found at no index: every line of every leaderboard carries the
    label 0, not its rank.  For the store of alice (5), bob (5) and carol (3)
    the three lines read 0, 0, 0 where the ranks are 1, 2, 3. *)
Theorem rank_label_is_zero :
  (forall s c c' guild k,
     fst (fst (getTopTenUsers (leaderboard c' (Object_entries 0 s)) c guild
                              (List.length s + k))) =
     match s with
     | [] => "No data"%string
     | _ => lines_labelled 0 (firstn 10 (leaderboard c' (Object_entries 0 s))) c guild
     end) /\
  fst (fst (getTopTenUsers (leaderboard messages (Object_entries 0 Sample.abc_store))
                           messages Sample.guild1 3)) =
  ("0. **Alice** - `5`" ++ newline ++ "0. **bob** - `5`" ++ newline
   ++ "0. **carol** - `3`" ++ newline)%string /\
  lines_ranked 1 (leaderboard messages (Object_entries 0 Sample.abc_store))
               messages Sample.guild1 =
  ("1. **Alice** - `5`" ++ newline ++ "2. **bob** - `5`" ++ newline
   ++ "3. **carol** - `3`" ++ newline)%string.
Proof.
  split; [|split; vm_compute; reflexivity].
  intros s c c' guild k. rewrite getTopTenUsers_labels.
  - pose proof (sort_length (compare_desc c') (Object_entries 0 s)) as L.
    fold (leaderboard c' (Object_entries 0 s)) in L.
    destruct s as [|[k0 r0] s]; [reflexivity|].
    destruct (leaderboard c' (Object_entries 0 ((k0, r0) :: s))); [discriminate L|].
    reflexivity.
  - intros e I. apply sort_In, Object_entries_ref in I. lia.
Qed.

(* ================================================================== *)
(** ** The handler *)








(* ================================================================== *)
(** ** Further properties of the counting *)

Lemma processMessage_counter message st u c :
  counter (stats (processMessage message st)) u c =
  (counter (stats st) u c + if by_human u message then increments message c else 0)%Z.
Proof.
  unfold by_human. destruct (bot (author message)) eqn:B.
  - unfold processMessage. rewrite B. simpl. lia.
  - rewrite processMessage_human by exact B. simpl stats.
    destruct (counted_spec message (stats st)) as [_ [Hc _]]. apply Hc.
Qed.

Lemma process_all_counter l : forall st u c,
  counter (stats (process_all l st)) u c = (counter (stats st) u c + added l u c)%Z.
Proof.
  induction l as [|m l IH]; intros st u c; [simpl; lia|].
  change (process_all (m :: l) st) with (process_all l (processMessage m st)).
  rewrite IH, processMessage_counter. cbn [added]. lia.
Qed.

Lemma added_perm l l' u c : Permutation l l' -> added l u c = added l' u c.
Proof.
  intros P. induction P; cbn [added]; lia.
Qed.

(** X1. The counters after a sequence of messages: every counter has grown
    by the sum of what the messages written by that human author add to it;
    the messages of bots and of other authors add nothing. *)
Theorem process_all_adds_up :
  forall l st u c,
    counter (stats (process_all l st)) u c = (counter (stats st) u c + added l u c)%Z.
Proof. intros l st u c. apply process_all_counter. Qed.

(** X2. The counts do not depend on the order in which the messages are
    processed: a page read newest first and the same messages received live
    give the same value to every counter. *)
Theorem process_all_order_independent :
  forall l l' st,
    Permutation l l' ->
    forall u c,
      counter (stats (process_all l st)) u c = counter (stats (process_all l' st)) u c.
Proof.
  intros l l' st P u c. rewrite !process_all_counter, (added_perm l l' u c P).
  reflexivity.
Qed.

Lemma process_all_order_independent_witness :
  Permutation [Sample.plain; Sample.two_links; Sample.four_files]
              [Sample.four_files; Sample.plain; Sample.two_links] /\
  counter (stats (process_all [Sample.plain; Sample.two_links; Sample.four_files]
                              Sample.old_state)) (author_id Sample.alice) images =
  counter (stats (process_all [Sample.four_files; Sample.plain; Sample.two_links]
                              Sample.old_state)) (author_id Sample.alice) images.
Proof.
  assert (P : Permutation [Sample.plain; Sample.two_links; Sample.four_files]
                          [Sample.four_files; Sample.plain; Sample.two_links]).
  { apply Permutation_sym, (Permutation_cons_app [Sample.plain; Sample.two_links] []).
    apply Permutation_refl. }
  split; [exact P|].
  apply (process_all_order_independent _ _ Sample.old_state P).
Defined.

(** *** Persistence *)

Lemma processMessage_writes message st :
  writes (processMessage message st) =
  writes st + (if bot (author message) then 0 else 1).
Proof.
  unfold processMessage. destruct (bot (author message)); simpl; lia.
Qed.

Lemma processMessage_file message st :
  (bot (author message) = false \/ file st = Some (stats st)) ->
  file (processMessage message st) = Some (stats (processMessage message st)).
Proof.
  unfold processMessage. destruct (bot (author message)); simpl.
  - intros [H | H]; [discriminate|exact H].
  - reflexivity.
Qed.

(** X3. [stats.json] follows the store: a sequence of messages causes one
    write per message of a human, and once a human has written (or if the
    file held the store before) the file holds exactly the store in memory. *)
Theorem process_all_persists :
  forall l st,
    writes (process_all l st) = writes st + humans l /\
    (0 < humans l \/ file st = Some (stats st) ->
     file (process_all l st) = Some (stats (process_all l st))).
Proof.
  unfold humans. induction l as [|m l IH]; intros st.
  - simpl. split; [lia|]. intros [H | H]; [lia|exact H].
  - change (process_all (m :: l) st) with (process_all l (processMessage m st)).
    destruct (IH (processMessage m st)) as [W F]. split.
    + rewrite W, processMessage_writes. cbn [filter].
      destruct (bot (author m)); simpl; lia.
    + intros H. apply F. cbn [filter] in H. destruct (bot (author m)) eqn:B.
      * simpl in H. destruct H as [H | H]; [left; exact H|].
        right. apply processMessage_file. right. exact H.
      * right. apply processMessage_file. left. exact B.
Qed.

Lemma process_all_persists_witness :
  writes (process_all Sample.history250 Sample.empty_state) = 225 /\
  file (process_all Sample.history250 Sample.empty_state) =
  Some (stats (process_all Sample.history250 Sample.empty_state)).
Proof.
  destruct (process_all_persists Sample.history250 Sample.empty_state) as [W F].
  split; [exact W|]. apply F. left. vm_compute. lia.
Defined.

(** *** The authors of the store *)

Lemma keys_update u f s : keys (update u f s) = keys s.
Proof.
  induction s as [|[k r] s IH]; simpl; [reflexivity|].
  destruct (String.eqb u k); simpl; [reflexivity|]. f_equal. exact IH.
Qed.

Lemma lookup_None_keys u s : lookup u s = None <-> ~ In u (keys s).
Proof.
  induction s as [|[k r] s IH]; simpl; [tauto|].
  destruct (String.eqb u k) eqn:E.
  - apply String.eqb_eq in E. subst k. split; [discriminate|]. intros H.
    exfalso. apply H. left. reflexivity.
  - apply String.eqb_neq in E. rewrite IH. split.
    + intros H [K | K]; [congruence|contradiction].
    + intros H K. apply H. right. exact K.
Qed.

Lemma keys_initUserStats message s :
  keys (initUserStats message s) =
  keys s ++ match lookup (author_id (author message)) s with
            | Some _ => []
            | None => [author_id (author message)]
            end.
Proof.
  unfold initUserStats. destruct (lookup (author_id (author message)) s).
  - rewrite keys_update, app_nil_r. reflexivity.
  - unfold keys. rewrite map_app. reflexivity.
Qed.

Lemma keys_counted message s : keys (counted message s) = keys (initUserStats message s).
Proof.
  unfold counted.
  assert (F : forall l s0, keys (fold_left (count_attachment (author_id (author message))) l s0)
                           = keys s0).
  { induction l as [|a l IH]; intros s0; [reflexivity|]. simpl. rewrite IH.
    rewrite count_attachment_kind. destruct (kind a); [apply keys_update|reflexivity]. }
  destruct (JS.linkRegex_test (content message)); unfold incr;
    rewrite ?keys_update, F; apply keys_update.
Qed.

Lemma keys_processMessage message st :
  keys (stats (processMessage message st)) =
  keys (stats st) ++
  (if by_human (author_id (author message)) message
   then match lookup (author_id (author message)) (stats st) with
        | Some _ => []
        | None => [author_id (author message)]
        end
   else []).
Proof.
  unfold by_human. rewrite String.eqb_refl, andb_true_r.
  destruct (bot (author message)) eqn:B; simpl.
  - unfold processMessage. rewrite B, app_nil_r. reflexivity.
  - rewrite processMessage_human by exact B. simpl stats.
    rewrite keys_counted. apply keys_initUserStats.
Qed.

(** X4. Processing messages never removes an author and never changes the
    order of the authors already in the store: new authors are appended, an
    author is in the store afterwards exactly when it was there before or one
    of the messages is from that human, and no key appears twice. *)
Theorem process_all_keeps_authors :
  forall l st,
    exists appended,
      keys (stats (process_all l st)) = keys (stats st) ++ appended /\
      (forall u, In u (keys (stats (process_all l st))) <->
                 In u (keys (stats st)) \/ exists m, In m l /\ by_human u m = true) /\
      (NoDup (keys (stats st)) -> NoDup (keys (stats (process_all l st)))).
Proof.
  induction l as [|m l IH]; intros st.
  - exists []. simpl. rewrite app_nil_r. split; [reflexivity|]. split; [|auto].
    intros u. split; [auto|]. intros [H | [m [[] _]]]. exact H.
  - change (process_all (m :: l) st) with (process_all l (processMessage m st)).
    destruct (IH (processMessage m st)) as [ext [K [I N]]].
    pose proof (keys_processMessage m st) as P.
    set (a := author_id (author m)) in *.
    assert (A : forall u, In u (keys (stats (processMessage m st))) <->
                          In u (keys (stats st)) \/ by_human u m = true).
    { intros u. rewrite P, in_app_iff. unfold by_human in *.
      rewrite String.eqb_refl, andb_true_r in *.
      destruct (bot (author m)); simpl.
      - split; [intros [H | []]; auto|intros [H | H]; [auto|discriminate]].
      - destruct (lookup a (stats st)) eqn:L; simpl.
        + split; [intros [H | []]; auto|]. intros [H | H]; [auto|].
          apply String.eqb_eq in H. subst u. left.
          destruct (in_dec string_dec a (keys (stats st))) as [Y | Y]; [exact Y|].
          apply lookup_None_keys in Y. congruence.
        + split.
          * intros [H | [<- | []]]; [auto|]. right. apply String.eqb_refl.
          * intros [H | H]; [auto|]. apply String.eqb_eq in H. auto. }
    eexists. split; [rewrite K, P, <- app_assoc; reflexivity|]. split.
    + intros u. rewrite I, A. split.
      * intros [[H | H] | [m' [H1 H2]]]; [auto| |].
        -- right. exists m. split; [left; reflexivity|exact H].
        -- right. exists m'. split; [right; exact H1|exact H2].
      * intros [H | [m' [[<- | H1] H2]]]; [auto|auto|].
        right. exists m'. auto.
    + intros D. apply N. rewrite P.
      destruct (by_human a m); [|rewrite app_nil_r; exact D].
      destruct (lookup a (stats st)) eqn:L; [rewrite app_nil_r; exact D|].
      apply lookup_None_keys in L.
      apply NoDup_app; [exact D|repeat constructor; simpl; tauto|].
      intros x Hx [<- | []]. contradiction.
Qed.

(** *** The invariant, over sequences *)

Lemma processMessage_ready message st u :
  ready u (stats st) -> ready u (stats (processMessage message st)).
Proof.
  intros R. destruct (bot (author message)) eqn:B.
  - unfold processMessage. rewrite B. exact R.
  - rewrite processMessage_human by exact B. simpl stats.
    destruct (counted_spec message (stats st)) as [Ra [_ [Hl _]]].
    destruct (string_dec u (author_id (author message))) as [-> | N]; [exact Ra|].
    destruct R as [r [L C]]. exists r. split; [|exact C].
    rewrite Hl by exact N. exact L.
Qed.

(** X5. The bot writes no record without a counter: a store whose records
    hold the five counters stays so through any sequence of messages, and
    whatever the store was, the record of every human who has written holds
    the five counters afterwards. *)
Theorem process_all_keeps_records_complete :
  forall l st,
    (complete_store (stats st) -> complete_store (stats (process_all l st))) /\
    (forall m, In m l -> bot (author m) = false ->
               ready (author_id (author m)) (stats (process_all l st))).
Proof.
  induction l as [|m l IH]; intros st.
  - split; [auto|]. intros m [].
  - change (process_all (m :: l) st) with (process_all l (processMessage m st)).
    destruct (IH (processMessage m st)) as [C R]. split.
    + intros H. apply C, processMessage_complete, H.
    + intros m' [<- | I] B; [|apply R; assumption].
      assert (R0 : ready (author_id (author m)) (stats (processMessage m st))).
      { rewrite processMessage_human by exact B. simpl stats.
        apply (counted_spec m (stats st)). }
      clear - R0. revert R0. generalize (processMessage m st).
      induction l as [|m' l IHl]; intros st0 R0; [exact R0|].
      change (process_all (m' :: l) st0) with (process_all l (processMessage m' st0)).
      apply IHl, processMessage_ready, R0.
Qed.

(** X6. [initUserStats] changes no count, whether the author is new or not:
    afterwards the record of the author exists, holds the five counters and
    carries the current user name; every counter of every author has the
    value it had; the records of the other authors are untouched; and the
    author is appended to the store if it was not in it. *)
Theorem initUserStats_changes_no_count :
  forall message s,
    let u := author_id (author message) in
    ready u (initUserStats message s) /\
    named u (author_username (author message)) (initUserStats message s) /\
    (forall u' c, counter (initUserStats message s) u' c = counter s u' c) /\
    (forall u', u' <> u -> lookup u' (initUserStats message s) = lookup u' s) /\
    keys (initUserStats message s) =
    keys s ++ match lookup u s with Some _ => [] | None => [u] end.
Proof.
  intros message s u. split; [apply initUserStats_ready|]. split.
  - eexists. split; [apply initUserStats_author|].
    destruct (lookup _ s); [apply username_repair|reflexivity].
  - split; [intros; apply initUserStats_counter|].
    split; [intros; apply initUserStats_other; assumption|apply keys_initUserStats].
Qed.

Lemma process_all_keeps_authors_witness :
  exists appended,
    keys (stats (process_all Sample.history250 Sample.abc_store_state)) =
    keys Sample.abc_store ++ appended /\
    NoDup (keys (stats (process_all Sample.history250 Sample.abc_store_state))).
Proof.
  destruct (process_all_keeps_authors Sample.history250 Sample.abc_store_state)
    as [appended [K [_ N]]].
  exists appended. split; [exact K|]. apply N.
  apply NoDup_by_nodup. vm_compute. reflexivity.
Defined.

Lemma process_all_keeps_records_complete_witness :
  complete_store (stats (process_all Sample.history250 Sample.abc_store_state)) /\
  ready (author_id Sample.alice) (stats (process_all [Sample.plain] Sample.old_state)).
Proof.
  split.
  - apply (proj1 (process_all_keeps_records_complete Sample.history250
                                                     Sample.abc_store_state)).
    repeat constructor; intros c; destruct c; discriminate.
  - apply (proj2 (process_all_keeps_records_complete [Sample.plain] Sample.old_state)
                 Sample.plain); [left; reflexivity|reflexivity].
Defined.

(* ================================================================== *)
(** ** Further properties of the back-fill *)

Lemma same_data_refl st : same_data st st.
Proof. repeat split. Qed.

Lemma same_data_trans st1 st2 st3 :
  same_data st1 st2 -> same_data st2 st3 -> same_data st1 st3.
Proof. intros [A [B C]] [A' [B' C']]. repeat split; congruence. Qed.

Lemma same_data_emit e st : same_data (emit e st) st.
Proof. repeat split. Qed.

Lemma processMessage_same_data m st1 st2 :
  same_data st1 st2 -> same_data (processMessage m st1) (processMessage m st2).
Proof.
  intros [A [B C]]. unfold processMessage.
  destruct (bot (author m)); [repeat split; assumption|].
  unfold same_data. simpl. rewrite A, C. repeat split.
Qed.

Lemma process_all_same_data l : forall st1 st2,
  same_data st1 st2 -> same_data (process_all l st1) (process_all l st2).
Proof.
  induction l as [|m l IH]; intros st1 st2 H; [exact H|].
  change (process_all (m :: l) ?s) with (process_all l (processMessage m s)).
  apply IH, processMessage_same_data, H.
Qed.

Section History.

Variable channel : Channel.
Variable history : list Message.
Hypothesis Hfetch : fetch channel = history_fetch history.
Hypothesis Hwf : well_formed history.

Lemma fetch_next done rest n :
  history = done ++ rest ->
  fetch channel n (next_options (reached done)) = Page (firstn 100 rest).
Proof.
  intros E. rewrite Hfetch. destruct Hwf as [Hnd Hid].
  destruct done as [|m done].
  - simpl in E. subst rest. reflexivity.
  - unfold reached. rewrite truthy_last_id.
    + unfold history_fetch, last_id. cbn [limit before]. rewrite E.
      rewrite older_than_last; [reflexivity|discriminate|rewrite <- E; exact Hnd].
    + discriminate.
    + rewrite E in Hid. apply Forall_app in Hid. apply Hid.
Qed.

Lemma reached_app done page :
  page <> [] -> reached (done ++ page) = last_id page.
Proof.
  intros N. unfold reached, last_id.
  destruct (done ++ page) eqn:E.
  - apply app_eq_nil in E. destruct E. contradiction.
  - rewrite <- E, map_app. f_equal. apply last_app.
    destruct page; [contradiction|discriminate].
Qed.

(** From any point of the history the loop goes through what is left, page
    by page, and ends by a short or an empty page. *)
Lemma backfill_loop_history : forall fuel rest done n fetchedCount st,
  history = done ++ rest ->
  List.length rest / 100 < fuel ->
  exists st' evs,
    backfill_loop fuel channel n (reached done) fetchedCount st =
      Some (st', fetchedCount + List.length rest, Done) /\
    same_data st' (process_all rest st) /\
    out st' = out st ++ evs /\
    requests evs = List.length rest / 100 + 1.
Proof.
  induction fuel as [|fuel IH]; intros rest done n cnt st E F; [lia|].
  cbn [backfill_loop]. rewrite (fetch_next done rest n E).
  set (rq := Request (ch_name channel) (next_options (reached done))).
  destruct (Nat.lt_ge_cases (List.length rest) 100) as [Short | Full].
  - rewrite (firstn_all2 (n := 100) rest) by lia.
    rewrite (Nat.div_small _ _ Short).
    destruct rest as [|m rest].
    + simpl. exists (emit rq st), [rq].
      rewrite Nat.add_0_r. repeat split; reflexivity.
    + assert (Z : (List.length (m :: rest) =? 0) = false) by reflexivity.
      rewrite Z. apply Nat.ltb_lt in Short. rewrite Short.
      eexists _, [rq; Log_fetched _ _]. split; [reflexivity|].
      split; [|split; [|reflexivity]].
      * eapply same_data_trans; [apply same_data_emit|].
        apply process_all_same_data, same_data_emit.
      * repeat (cbn [out emit] || rewrite process_all_out).
        rewrite <- ?app_assoc. reflexivity.
  - set (page := firstn 100 rest). set (rest' := skipn 100 rest).
    assert (Er : rest = page ++ rest') by (symmetry; apply firstn_skipn).
    assert (Lp : List.length page = 100) by (unfold page; rewrite length_firstn; lia).
    assert (Lr : List.length rest = 100 + List.length rest')
      by (rewrite Er at 1; rewrite List.length_app; lia).
    assert (Np : page <> []) by (intros N; rewrite N in Lp; discriminate).
    rewrite Lp. change (100 =? 0) with false. change (100 <? 100) with false.
    cbv iota.
    assert (Dv : List.length rest / 100 = 1 + List.length rest' / 100).
    { rewrite Lr. replace (100 + List.length rest') with (1 * 100 + List.length rest') by lia.
      apply Nat.div_add_l. discriminate. }
    rewrite <- (reached_app done page Np).
    destruct (IH rest' (done ++ page) (S n) (cnt + 100)
                 (emit (Log_fetched 100 (cnt + 100)) (process_all page (emit rq st))))
      as [st' [evs [L [S1 [O1 R1]]]]].
    { rewrite <- app_assoc, <- Er. exact E. }
    { lia. }
    exists st', (rq :: Log_fetched 100 (cnt + 100) :: evs).
    split; [rewrite L; f_equal; f_equal; f_equal; lia|].
    split; [|split].
    + eapply same_data_trans; [exact S1|].
      replace (process_all rest st) with (process_all rest' (process_all page st))
        by (rewrite <- process_all_app, <- Er; reflexivity).
      apply process_all_same_data.
      eapply same_data_trans; [apply same_data_emit|].
      apply process_all_same_data, same_data_emit.
    + rewrite O1. repeat (cbn [out emit] || rewrite process_all_out).
      rewrite <- ?app_assoc. reflexivity.
    + unfold requests in *. unfold rq. cbn [filter is_request List.length].
      rewrite R1, Dv. reflexivity.
Qed.

(** The loop of the channel, from the newest message. *)
Lemma backfill_channel_history fuel channelId st :
  List.length history / 100 < fuel ->
  exists st' evs,
    backfill_channel fuel channelId channel st = Some (st', Done) /\
    same_data st' (process_all history st) /\
    out st' = out st ++ Log_fetching (ch_name channel) channelId :: evs
                     ++ [Log_done (ch_name channel) (List.length history)] /\
    requests evs = List.length history / 100 + 1.
Proof.
  intros F.
  destruct (backfill_loop_history fuel history [] 0 0
              (emit (Log_fetching (ch_name channel) channelId) st) eq_refl F)
    as [st' [evs [L [S1 [O1 R1]]]]].
  unfold backfill_channel. unfold reached in L. cbn [Nat.add] in L. rewrite L.
  exists (emit (Log_done (ch_name channel) (List.length history)) st'), evs.
  split; [reflexivity|]. split; [|split; [|exact R1]].
  - eapply same_data_trans; [apply same_data_emit|].
    eapply same_data_trans; [exact S1|].
    apply process_all_same_data, same_data_emit.
  - cbn [out emit]. rewrite O1. cbn [out emit]. rewrite <- ?app_assoc.
    reflexivity.
Qed.

End History.

(** X7. Back-fill of a channel with a fixed history of any length: the loop
    ends by itself (Done) after one request per started page of 100 plus the
    one that sees the end, it has processed every message of the history
    exactly once, newest first, and it logs the length of the history as the
    number fetched. *)
Theorem backfill_processes_whole_history :
  forall fuel channelId channel history st,
    fetch channel = history_fetch history ->
    well_formed history ->
    List.length history / 100 < fuel ->
    exists st' evs,
      backfill_channel fuel channelId channel st = Some (st', Done) /\
      same_data st' (process_all history st) /\
      out st' = out st ++ Log_fetching (ch_name channel) channelId :: evs
                       ++ [Log_done (ch_name channel) (List.length history)] /\
      requests evs = List.length history / 100 + 1.
Proof.
  intros fuel channelId channel history st Hf Hw F.
  apply (backfill_channel_history channel history Hf Hw fuel channelId st F).
Qed.

Lemma backfill_processes_whole_history_witness :
  exists st' evs,
    backfill_channel 3 "900" Sample.general Sample.old_state = Some (st', Done) /\
    same_data st' (process_all Sample.history250 Sample.old_state) /\
    out st' = out Sample.old_state ++ Log_fetching "general" "900" :: evs
                                   ++ [Log_done "general" 250] /\
    requests evs = 250 / 100 + 1.
Proof.
  apply (backfill_processes_whole_history 3 "900" Sample.general Sample.history250
                                          Sample.old_state).
  - reflexivity.
  - split; [apply NoDup_by_nodup|apply nonempty_ids_by_forallb]; vm_compute; reflexivity.
  - vm_compute. lia.
Defined.

(** X8. The back-fill keeps no trace of what it has counted: run a second
    time on the same history it counts every message again, so that each
    counter has grown by twice what the history adds. *)
Theorem backfill_twice_counts_twice :
  forall fuel channelId channel history st,
    fetch channel = history_fetch history ->
    well_formed history ->
    List.length history / 100 < fuel ->
    exists st1 st2,
      backfill_channel fuel channelId channel st = Some (st1, Done) /\
      backfill_channel fuel channelId channel st1 = Some (st2, Done) /\
      forall u c,
        counter (stats st1) u c = (counter (stats st) u c + added history u c)%Z /\
        counter (stats st2) u c = (counter (stats st) u c + 2 * added history u c)%Z.
Proof.
  intros fuel channelId channel history st Hf Hw F.
  destruct (backfill_channel_history channel history Hf Hw fuel channelId st F)
    as [st1 [evs1 [B1 [[S1 _] _]]]].
  destruct (backfill_channel_history channel history Hf Hw fuel channelId st1 F)
    as [st2 [evs2 [B2 [[S2 _] _]]]].
  exists st1, st2. split; [exact B1|]. split; [exact B2|].
  intros u c. rewrite S2, S1, !process_all_counter. rewrite S1, process_all_counter.
  lia.
Qed.

Lemma backfill_twice_counts_twice_witness :
  exists st1 st2,
    backfill_channel 1 "903" Sample.random Sample.empty_state = Some (st1, Done) /\
    backfill_channel 1 "903" Sample.random st1 = Some (st2, Done) /\
    forall u c,
      counter (stats st1) u c =
        (counter [] u c + added [Sample.plain; Sample.two_links] u c)%Z /\
      counter (stats st2) u c =
        (counter [] u c + 2 * added [Sample.plain; Sample.two_links] u c)%Z.
Proof.
  apply (backfill_twice_counts_twice 1 "903" Sample.random
           [Sample.plain; Sample.two_links] Sample.empty_state).
  - reflexivity.
  - split; [apply NoDup_by_nodup|apply nonempty_ids_by_forallb]; vm_compute; reflexivity.
  - vm_compute. lia.
Defined.

(** X9. Only text channels are gone through: the back-fill of a list of
    channels is the back-fill of its text channels, and when there is none
    the state is left as it is and no request is made. *)
Theorem backfill_visits_text_channels_only :
  forall fuel chs st,
    backfill_channels fuel chs st =
    backfill_channels fuel (filter (fun e => is_GuildText (ch_type (snd e))) chs) st /\
    (text_channels chs = [] -> backfill_channels fuel chs st = Some (st, [])).
Proof.
  intros fuel chs. induction chs as [|[channelId channel] chs IH]; intros st.
  - split; reflexivity.
  - unfold text_channels in *. cbn [filter snd backfill_channels].
    destruct (is_GuildText (ch_type channel)) eqn:T.
    + split; [|discriminate]. cbn [backfill_channels]. rewrite T.
      destruct (backfill_channel fuel channelId channel st) as [[st' t]|]; [|reflexivity].
      rewrite (proj1 (IH st')). reflexivity.
    + apply IH.
Qed.

Lemma backfill_visits_text_channels_only_witness :
  backfill_channels 0 [("901"%string, Sample.lounge)] Sample.old_state =
  Some (Sample.old_state, []).
Proof.
  apply (backfill_visits_text_channels_only 0 [("901"%string, Sample.lounge)]
                                            Sample.old_state).
  reflexivity.
Defined.

Lemma backfill_history_channels fuel : forall l st,
  Forall (fun e => well_formed (snd e) /\ List.length (snd e) / 100 < fuel) l ->
  exists st',
    backfill_channels fuel (history_channels l) st =
      Some (st', map (fun e => (fst (fst e), Done)) l) /\
    same_data st' (process_all (List.concat (map snd l)) st).
Proof.
  induction l as [|[[channelId name] history] l IH]; intros st F.
  - exists st. split; [reflexivity|apply same_data_refl].
  - inversion F as [|? ? [Hw Hl] F']. subst. simpl in Hw, Hl.
    cbn [history_channels map fst snd backfill_channels ch_type is_GuildText].
    destruct (backfill_channel_history
                (mkChannel name GuildText (history_fetch history)) history
                eq_refl Hw fuel channelId st Hl) as [st1 [evs [B [S1 _]]]].
    rewrite B.
    destruct (IH st1 F') as [st2 [B2 S2]].
    fold (history_channels l). rewrite B2.
    exists st2. split; [reflexivity|].
    cbn [List.concat]. rewrite process_all_app.
    eapply same_data_trans; [exact S2|]. apply process_all_same_data, S1.
Qed.

(** X10. [fetchAllMessagesForGuild] on a guild whose channels are text
    channels with fixed histories: it ends, every channel is Done, and the
    store, the file and the number of writes are those left by processing the
    histories one after the other, in the order of the channels. *)
Theorem fetchAll_processes_all_histories :
  forall fuel guild l st,
    channels guild = history_channels l ->
    Forall (fun e => well_formed (snd e) /\ List.length (snd e) / 100 < fuel) l ->
    exists st',
      fetchAllMessagesForGuild fuel (Some guild) st =
        Some (st', map (fun e => (fst (fst e), Done)) l) /\
      same_data st' (process_all (List.concat (map snd l)) st) /\
      forall u c,
        counter (stats st') u c =
        (counter (stats st) u c + added (List.concat (map snd l)) u c)%Z.
Proof.
  intros fuel guild l st Hc F.
  destruct (backfill_history_channels fuel l st F) as [st' [B S1]].
  exists (emit Log_finished st'). unfold fetchAllMessagesForGuild.
  rewrite Hc, B. split; [reflexivity|].
  assert (S2 : same_data (emit Log_finished st')
                         (process_all (List.concat (map snd l)) st))
    by (eapply same_data_trans; [apply same_data_emit|exact S1]).
  split; [exact S2|]. intros u c. destruct S2 as [S2 _].
  rewrite S2. apply process_all_counter.
Qed.

Lemma fetchAll_processes_all_histories_witness :
  exists st',
    fetchAllMessagesForGuild 3 (Some Sample.guild2) Sample.old_state =
      Some (st', [("900"%string, Done); ("903"%string, Done)]) /\
    same_data st' (process_all (List.concat (map snd Sample.two_histories))
                               Sample.old_state) /\
    forall u c,
      counter (stats st') u c =
      (counter Sample.old_store u c
       + added (List.concat (map snd Sample.two_histories)) u c)%Z.
Proof.
  apply (fetchAll_processes_all_histories 3 Sample.guild2 Sample.two_histories
                                          Sample.old_state).
  - reflexivity.
  - assert (W : forall h, nodup string_dec (map msg_id h) = map msg_id h ->
                forallb (fun m => negb (String.eqb (msg_id m) "")) h = true ->
                List.length h / 100 < 3 ->
                well_formed h /\ List.length h / 100 < 3).
    { intros h N I L. split; [split|exact L].
      - apply NoDup_by_nodup, N.
      - apply nonempty_ids_by_forallb, I. }
    constructor; [|constructor; [|constructor]];
      apply W; vm_compute; try reflexivity; lia.
Defined.

(* ================================================================== *)
(** ** Further properties of the handler and of the leaderboard *)

Lemma backfill_loop_processed fuel channel : forall n lastMessageId fetchedCount st r,
  backfill_loop fuel channel n lastMessageId fetchedCount st = Some r ->
  exists msgs, same_data (fst (fst r)) (process_all msgs st).
Proof.
  induction fuel as [|fuel IH]; intros n l cnt st r H; [discriminate|].
  cbn [backfill_loop] in H.
  destruct (fetch channel n (next_options l)) as [page|error].
  - destruct (List.length page =? 0).
    + injection H as <-. exists []. apply same_data_emit.
    + assert (P : same_data
                    (emit (Log_fetched (List.length page) (cnt + List.length page))
                       (process_all page (emit (Request (ch_name channel) (next_options l)) st)))
                    (process_all page st)).
      { eapply same_data_trans; [apply same_data_emit|].
        apply process_all_same_data, same_data_emit. }
      destruct (List.length page <? 100).
      * injection H as <-. exists page. exact P.
      * apply IH in H. destruct H as [msgs H]. exists (page ++ msgs).
        rewrite process_all_app. eapply same_data_trans; [exact H|].
        apply process_all_same_data, P.
  - injection H as <-. exists []. simpl.
    eapply same_data_trans; apply same_data_emit.
Qed.

Lemma backfill_channels_processed fuel : forall chs st r,
  backfill_channels fuel chs st = Some r ->
  exists msgs, same_data (fst r) (process_all msgs st).
Proof.
  induction chs as [|[channelId channel] chs IH]; intros st r H; simpl in H.
  - injection H as <-. exists []. apply same_data_refl.
  - destruct (is_GuildText (ch_type channel)); [|apply IH, H].
    unfold backfill_channel in H.
    destruct (backfill_loop fuel channel 0 None 0 _) as [[[st1 cnt] t]|] eqn:L;
      [|discriminate].
    apply backfill_loop_processed in L. destruct L as [m1 L]. simpl in L.
    destruct (backfill_channels fuel chs _) as [[st2 ts]|] eqn:R; [|discriminate].
    apply IH in R. destruct R as [m2 R]. simpl in R. injection H as <-. simpl.
    exists (m1 ++ m2). rewrite process_all_app.
    eapply same_data_trans; [exact R|]. apply process_all_same_data.
    eapply same_data_trans; [apply same_data_emit|].
    eapply same_data_trans; [exact L|].
    apply process_all_same_data, same_data_emit.
Qed.

Lemma process_all_keys l : forall st,
  exists appended, keys (stats (process_all l st)) = keys (stats st) ++ appended.
Proof.
  induction l as [|m l IH]; intros st.
  - exists []. simpl. rewrite app_nil_r. reflexivity.
  - change (process_all (m :: l) st) with (process_all l (processMessage m st)).
    destruct (IH (processMessage m st)) as [ext K].
    rewrite K, keys_processMessage, <- app_assoc. eexists. reflexivity.
Qed.

Lemma process_all_complete l : forall st,
  complete_store (stats st) -> complete_store (stats (process_all l st)).
Proof.
  induction l as [|m l IH]; intros st H; [exact H|].
  change (process_all (m :: l) st) with (process_all l (processMessage m st)).
  apply IH, processMessage_complete, H.
Qed.

Lemma on_messageCreate_processed fuel guild message st st' r :
  on_messageCreate fuel guild message st = Some (st', r) ->
  exists msgs, same_data st' (process_all msgs st).
Proof.
  unfold on_messageCreate.
  destruct (String.eqb (content message) "!ping");
    [intros H; injection H as <- _; exists []; apply same_data_emit|].
  destruct (String.eqb (content message) "!zain");
    [intros H; injection H as <- _; exists []; apply same_data_emit|].
  destruct (String.eqb (content message) "!arjun");
    [intros H; injection H as <- _; exists []; apply same_data_emit|].
  destruct (String.eqb (content message) "!fetchHistory").
  - destruct guild as [g|];
      [|intros H; injection H as <- _; exists []; apply same_data_emit].
    destruct (members_fetch_all g);
      [intros H; injection H as <- _; exists []; apply same_data_refl|].
    unfold fetchAllMessagesForGuild.
    destruct (backfill_channels fuel (channels g) st) as [[st1 ts]|] eqn:B;
      [|discriminate].
    intros H. injection H as <- _.
    apply backfill_channels_processed in B. destruct B as [msgs B]. exists msgs.
    eapply same_data_trans; [apply same_data_emit|].
    eapply same_data_trans; [apply same_data_emit|exact B].
  - exists [message]. revert H.
    destruct (String.eqb (content message) "!stats").
    + destruct (List.length (stats (processMessage message st)) =? 0);
        [intros H; injection H as <- _; apply same_data_emit|].
      destruct guild as [g|];
        [|intros H; injection H as <- _; apply same_data_refl].
      destruct (stats_message g (stats (processMessage message st))) as [text log].
      intros H. injection H as <- _. repeat split.
    + intros H. injection H as <- _. apply same_data_refl.
Qed.

(** X11. Whatever message arrives, the handler changes the store, the file
    and the number of writes only by processing messages: the state it leaves
    is the one after [processMessage] on some list of messages.  Hence no
    event lowers a counter, removes or moves an author, or leaves a record
    without a counter in a store that had none. *)
Theorem handler_only_counts :
  forall fuel guild message st st' r,
    on_messageCreate fuel guild message st = Some (st', r) ->
    (exists msgs, same_data st' (process_all msgs st)) /\
    grows (stats st) (stats st') /\
    (exists appended, keys (stats st') = keys (stats st) ++ appended) /\
    (complete_store (stats st) -> complete_store (stats st')).
Proof.
  intros fuel guild message st st' r H.
  destruct (on_messageCreate_processed fuel guild message st st' r H) as [msgs [S1 D]].
  split; [exists msgs; split; assumption|]. rewrite S1.
  split; [apply process_all_grows|].
  split; [apply process_all_keys|apply process_all_complete].
Qed.

Lemma handler_only_counts_witness :
  grows (stats Sample.abc_store_state)
        (stats (fst (match on_messageCreate 2 (Some Sample.guild1) Sample.stats_command
                                            Sample.abc_store_state with
                     | Some p => p
                     | None => (Sample.abc_store_state, Returned)
                     end))).
Proof.
  apply (handler_only_counts 2 (Some Sample.guild1) Sample.stats_command
           Sample.abc_store_state _ Returned).
  vm_compute. reflexivity.
Defined.

(** X12. The name shown for an entry.  A member found in the cache or by the
    request is shown by its display name, else its user name, else the
    identifier (the stored user name is then not used); a request rejected
    with code 10007 gives "Unknown User" and logs it; any other rejection is
    logged and gives the stored user name, else the identifier.  The name is
    empty only if the identifier is. *)
Theorem display_name_fallback :
  forall guild userId userStats,
    let shown := resolve_name guild userId userStats in
    let found member :=
      shown = (first_truthy [Some (displayName member); Some (user_username member)]
                            userId, []) in
    (forall member, members_cache guild userId = Some member -> found member) /\
    (members_cache guild userId = None ->
     (forall member, members_fetch guild userId = Fetched member -> found member) /\
     (forall error, members_fetch guild userId = Rejected (Some 10007%Z) error ->
        shown = ("Unknown User"%string, [Log_user_left userId])) /\
     (forall code error, members_fetch guild userId = Rejected code error ->
        code <> Some 10007%Z ->
        shown = (first_truthy [username userStats] userId, [Error_member userId error]))) /\
    (fst shown = ""%string -> userId = ""%string).
Proof.
  intros guild userId userStats shown found. subst shown found.
  assert (M : forall member,
             (match JS.or_else (member_name member) (Some userId) with
              | Some s => s
              | None => "undefined"%string
              end) = first_truthy [Some (displayName member); Some (user_username member)]
                                  userId).
  { intros member. unfold member_name, JS.or_else, first_truthy, JS.truthy.
    destruct (String.eqb (displayName member) "") eqn:E1; cbn; rewrite ?E1; cbn;
      [|reflexivity].
    destruct (String.eqb (user_username member) "") eqn:E2; cbn; rewrite ?E2; cbn;
      reflexivity. }
  assert (U : (match JS.or_else (username userStats) (Some userId) with
               | Some s => s
               | None => "undefined"%string
               end) = first_truthy [username userStats] userId).
  { unfold JS.or_else, first_truthy, JS.truthy.
    destruct (username userStats) as [n|]; cbn; [|reflexivity].
    destruct (String.eqb n "") eqn:E; cbn; rewrite ?E; reflexivity. }
  unfold resolve_name. split; [|split].
  - intros member C. rewrite C, M. reflexivity.
  - intros C. rewrite C. split; [|split].
    + intros member F. rewrite F, M. reflexivity.
    + intros error F. rewrite F. reflexivity.
    + intros code error F N. rewrite F.
      destruct code as [z|]; [|rewrite U; reflexivity].
      destruct (Z.eq_dec z 10007) as [-> | Nz]; [congruence|].
      assert (X : (match z with
                   | 10007%Z => (Some "Unknown User"%string, [Log_user_left userId])
                   | _ => (username userStats, [Error_member userId error])
                   end) = (username userStats, [Error_member userId error])).
      { clear - Nz.
        repeat match goal with
               | |- context [match ?p with _ => _ end] =>
                   is_var p; destruct p; try reflexivity; try congruence
               end. }
      rewrite X, U. reflexivity.
  - assert (T : forall l, first_truthy l userId = ""%string -> userId = ""%string).
    { induction l as [|v l IH]; simpl; [auto|].
      destruct v as [x|]; simpl; [|exact IH].
      destruct (String.eqb x "") eqn:E; simpl; [exact IH|].
      apply String.eqb_neq in E. intros ->. contradiction. }
    destruct (members_cache guild userId) as [member|].
    + rewrite M. apply T.
    + destruct (members_fetch guild userId) as [member|code error].
      * rewrite M. apply T.
      * destruct code as [z|]; [|rewrite U; apply T].
        destruct (Z.eq_dec z 10007) as [-> | Nz]; [discriminate|].
        assert (X : (match z with
                     | 10007%Z => (Some "Unknown User"%string, [Log_user_left userId])
                     | _ => (username userStats, [Error_member userId error])
                     end) = (username userStats, [Error_member userId error])).
        { clear - Nz.
          repeat match goal with
                 | |- context [match ?p with _ => _ end] =>
                     is_var p; destruct p; try reflexivity; try congruence
                 end. }
        rewrite X, U. apply T.
Qed.

Lemma display_name_fallback_witness :
  resolve_name Sample.guild1 (author_id Sample.alice) (Sample.record "alice" 5) =
    ("Alice"%string, []) /\
  resolve_name Sample.guild1 (author_id Sample.bob) (Sample.record "bob" 5) =
    ("bob"%string, [Error_member (author_id Sample.bob) "timeout"]) /\
  resolve_name Sample.guild3 (author_id Sample.bob) (Sample.record "bob" 5) =
    ("Unknown User"%string, [Log_user_left (author_id Sample.bob)]).
Proof.
  split; [|split].
  - apply (proj1 (display_name_fallback Sample.guild1 (author_id Sample.alice)
                    (Sample.record "alice" 5)) (mkMember "Alice" "alice")).
    reflexivity.
  - destruct (display_name_fallback Sample.guild1 (author_id Sample.bob)
                (Sample.record "bob" 5)) as [_ [H _]].
    destruct (H eq_refl) as [_ [_ O]].
    apply (O None "timeout"%string); [reflexivity|discriminate].
  - destruct (display_name_fallback Sample.guild3 (author_id Sample.bob)
                (Sample.record "bob" 5)) as [_ [H _]].
    destruct (H eq_refl) as [_ [U _]].
    apply (U "Unknown Member"%string). reflexivity.
Defined.



(** X14. The commands do not look at who writes: a bot that sends [!stats]
    is answered, from the store as it is, while its message is not counted;
    on an empty store the answer is "No data yet!".  Apart from
    [!fetchHistory], no message of a bot changes the store, the file or the
    number of writes. *)
Theorem bots_are_answered_not_counted :
  forall fuel guild message st,
    bot (author message) = true ->
    (content message <> "!fetchHistory"%string ->
     exists st' r,
       on_messageCreate fuel guild message st = Some (st', r) /\ same_data st' st) /\
    (content message = "!stats"%string ->
     (stats st = [] ->
      on_messageCreate fuel guild message st =
      Some (emit (Send "No data yet!") st, Returned)) /\
     (forall g, guild = Some g -> stats st <> [] ->
        on_messageCreate fuel guild message st =
        Some (emit (Send (fst (stats_message g (stats st))))
                   (emit_all (snd (stats_message g (stats st))) st), Returned))).
Proof.
  intros fuel guild message st B.
  assert (P : processMessage message st = st)
    by (unfold processMessage; rewrite B; reflexivity).
  split.
  - intros N. unfold on_messageCreate. rewrite P.
    destruct (String.eqb (content message) "!ping");
      [eexists _, _; split; [reflexivity|apply same_data_emit]|].
    destruct (String.eqb (content message) "!zain");
      [eexists _, _; split; [reflexivity|apply same_data_emit]|].
    destruct (String.eqb (content message) "!arjun");
      [eexists _, _; split; [reflexivity|apply same_data_emit]|].
    apply String.eqb_neq in N. rewrite N.
    destruct (String.eqb (content message) "!stats");
      [|eexists _, _; split; [reflexivity|apply same_data_refl]].
    destruct (List.length (stats st) =? 0);
      [eexists _, _; split; [reflexivity|apply same_data_emit]|].
    destruct guild as [g|];
      [|eexists _, _; split; [reflexivity|apply same_data_refl]].
    destruct (stats_message g (stats st)) as [text log].
    eexists _, _. split; [reflexivity|]. repeat split.
  - intros E. unfold on_messageCreate. rewrite E, P. simpl. split.
    + intros ->. reflexivity.
    + intros g -> N. destruct (stats st) as [|e s] eqn:S; [contradiction|].
      simpl. rewrite <- S. destruct (stats_message g (stats st)). reflexivity.
Qed.

Lemma bots_are_answered_not_counted_witness :
  on_messageCreate 0 None Sample.bot_stats_command Sample.empty_state =
    Some (emit (Send "No data yet!") Sample.empty_state, Returned) /\
  on_messageCreate 0 (Some Sample.guild1) Sample.bot_stats_command Sample.abc_store_state =
    Some (emit (Send (fst (stats_message Sample.guild1 Sample.abc_store)))
               (emit_all (snd (stats_message Sample.guild1 Sample.abc_store))
                         Sample.abc_store_state), Returned).
Proof.
  split.
  - apply (proj1 (proj2 (bots_are_answered_not_counted 0 None Sample.bot_stats_command
                           Sample.empty_state eq_refl) eq_refl)). reflexivity.
  - apply (proj2 (proj2 (bots_are_answered_not_counted 0 (Some Sample.guild1)
                           Sample.bot_stats_command Sample.abc_store_state eq_refl)
                        eq_refl) Sample.guild1); [reflexivity|discriminate].
Defined.

Lemma live_not_commands fuel guild : forall l st,
  Forall (fun m => is_command m = false) l ->
  live fuel guild l st = Some (process_all l st).
Proof.
  induction l as [|m l IH]; intros st F; [reflexivity|].
  inversion F as [|? ? Hm F']. subst.
  unfold is_command in Hm. simpl in Hm. rewrite !orb_false_iff in Hm.
  destruct Hm as [H1 [H2 [H3 [H4 [H5 _]]]]].
  cbn [live]. unfold on_messageCreate. rewrite H1, H2, H3, H4, H5.
  apply IH, F'.
Qed.

(** X15. Live events and back-fill count alike: for a history without
    command messages, receiving the messages one by one as they were written
    and back-filling them afterwards give the same value to every counter of
    every author. *)
Theorem live_and_backfill_agree :
  forall fuel guild channelId channel history st,
    fetch channel = history_fetch history ->
    well_formed history ->
    List.length history / 100 < fuel ->
    Forall (fun m => is_command m = false) history ->
    exists st1 st2,
      live fuel guild (rev history) st = Some st1 /\
      backfill_channel fuel channelId channel st = Some (st2, Done) /\
      forall u c, counter (stats st1) u c = counter (stats st2) u c.
Proof.
  intros fuel guild channelId channel history st Hf Hw F N.
  destruct (backfill_channel_history channel history Hf Hw fuel channelId st F)
    as [st2 [evs [B [[S2 _] _]]]].
  exists (process_all (rev history) st), st2.
  split; [apply live_not_commands, Forall_rev, N|]. split; [exact B|].
  intros u c. rewrite S2, !process_all_counter.
  rewrite (added_perm (rev history) history u c); [reflexivity|].
  apply Permutation_sym, Permutation_rev.
Qed.

Lemma live_and_backfill_agree_witness :
  exists st1 st2,
    live 3 (Some Sample.guild1) (rev Sample.history250) Sample.old_state = Some st1 /\
    backfill_channel 3 "900" Sample.general Sample.old_state = Some (st2, Done) /\
    forall u c, counter (stats st1) u c = counter (stats st2) u c.
Proof.
  apply (live_and_backfill_agree 3 (Some Sample.guild1) "900" Sample.general
           Sample.history250 Sample.old_state).
  - reflexivity.
  - split; [apply NoDup_by_nodup|apply nonempty_ids_by_forallb]; vm_compute; reflexivity.
  - vm_compute. lia.
  - apply Forall_forall. intros m I.
    assert (H : forallb (fun m => negb (is_command m)) Sample.history250 = true)
      by (vm_compute; reflexivity).
    rewrite forallb_forall in H. apply H in I. apply negb_true_iff in I. exact I.
Defined.

(** X16. The test of the regular expression of [processMessage] succeeds
    exactly on the texts that hold, somewhere, [http://] or [https://] in
    lower case followed at once by a character that is not white space. *)
Theorem link_test_finds_links :
  forall s, JS.linkRegex_test s = true <-> has_link s.
Proof. intros s. apply linkRegex_test_iff. Qed.

Lemma link_test_finds_links_witness :
  JS.linkRegex_test "docs at https://example.org/a b" = true /\
  ~ has_link "HTTP://EXAMPLE.ORG and http:// nothing".
Proof.
  split.
  - apply (proj2 (link_test_finds_links "docs at https://example.org/a b")).
    exists "docs at "%string, "example.org/a b"%string.
    split; [right; reflexivity|reflexivity].
  - intros H.
    apply (proj2 (link_test_finds_links "HTTP://EXAMPLE.ORG and http:// nothing")) in H.
    vm_compute in H. discriminate H.
Defined.
